(** * The NSQ broker adapter (broker/nsq/nsq.go)

    A shallow embedding of the connection and subscription lifecycle of
    [nsqBroker]: [NewBroker], [Init], [Connect], [Disconnect], [Publish],
    [Subscribe], the dispatch shim built by [Subscribe], and [Unsubscribe].

    The go-nsq client, the codec, [uuid.NewUUID] and [rand.Intn] are
    external collaborators.  Their observable behaviour is supplied by an
    environment [Env] of oracles indexed by a logical clock (the number of
    external calls made so far), so that every sequence of successes and
    failures of the client is covered.  Each external call is appended to a
    trace, and the client-side state of producer and consumer handles is
    kept in a store.

    The model is sequential: operations are observed between calls, that
    is, at the points where the broker's mutex is not held. *)

From Stdlib Require Import ZArith String List Lia Bool.
From stdpp Require Import base list strings pretty.
Import ListNotations.
Local Open Scope Z_scope.
Local Open Scope string_scope.
Local Open Scope list_scope.

(** ** Data *)

Definition error := string.
Definition bytes := list Byte.byte.

(** Go functions returning [(T, error)]. *)
Inductive result (A : Type) : Type :=
| Ok (a : A)
| Err (e : error).
Arguments Ok {A} a.
Arguments Err {A} e.

(** [broker.Message] *)
Record Message := mkMessage {
  Header : list (string * string);
  Body : bytes
}.

(** [nsq.Message]: the body and the two flags the adapter touches. *)
Record nsqMessage := mkNsqMessage {
  nm_Body : bytes;
  nm_autoResponseDisabled : bool;
  nm_responded : bool
}.

(** [nsq.Config]: the adapter itself only writes [MaxInFlight]; the other
    settings are kept as the list of flags applied through
    [nsq.ConfigFlag.Set]. *)
Record Config := mkConfig {
  MaxInFlight : Z;
  cfg_flags : list string
}.

(** A [chan *nsq.ProducerTransaction]; channels are reference values and
    may be nil. *)
Inductive Chan := nilChan | mkChan (id : nat).

Definition Chan_is_nil (ch : Chan) : bool :=
  match ch with nilChan => true | mkChan _ => false end.

(** [broker.Codec] *)
Record Codec := mkCodec {
  Marshal : Message -> result bytes;
  Unmarshal : bytes -> result Message
}.

(** The values the broker looks up in [broker.Options.Context]
    ([lookupdHTTPAddrsKey], [consumerOptsKey]). *)
Record BrokerCtx := mkBrokerCtx {
  ctx_lookupdHTTPAddrs : option (list string);
  ctx_consumerOpts : option (list string)
}.

(** [broker.Options]; a nil [Context] is [None]. *)
Record Options := mkOptions {
  Addrs : list string;
  o_Codec : Codec;
  o_Context : option BrokerCtx
}.

(** Values looked up in [broker.PublishOptions.Context]
    ([asyncPublishKey], [deferredPublishKey]). *)
Record PublishCtx := mkPublishCtx {
  ctx_asyncPublish : option Chan;
  ctx_deferredPublish : option Z
}.

Record PublishOptions := mkPublishOptions {
  po_Context : option PublishCtx
}.

(** Values looked up in [broker.SubscribeOptions.Context]
    ([concurrentHandlerKey], [maxInFlightKey]). *)
Record SubscribeCtx := mkSubscribeCtx {
  ctx_concurrentHandler : option Z;
  ctx_maxInFlight : option Z
}.

Record SubscribeOptions := mkSubscribeOptions {
  AutoAck : bool;
  Queue : string;
  so_Context : option SubscribeCtx
}.

(** Functional options ([broker.Option], [broker.PublishOption],
    [broker.SubscribeOption]): functions updating an options struct. *)
Definition Option_ := Options -> Options.
Definition PublishOption := PublishOptions -> PublishOptions.
Definition SubscribeOption := SubscribeOptions -> SubscribeOptions.

Definition apply_opts {A : Type} (opts : list (A -> A)) (init : A) : A :=
  fold_left (fun o f => f o) opts init.

(** [publication] (its [opts] field is never written by this file). *)
Record publication := mkPublication {
  pub_topic : string;
  pub_m : Message;
  pub_nm : nsqMessage
}.

(** [broker.Handler]: the caller's handler, observed through its return
    value. *)
Definition Handler := publication -> option error.

(** One run of a [nsq.HandlerFunc]: the raw message as the run leaves it,
    the publications handed to the caller's handler (in order), and the
    value returned to the queue client. *)
Record ShimRun := mkShimRun {
  sr_nm : nsqMessage;
  sr_handled : list publication;
  sr_ret : option error
}.

(** [nsq.HandlerFunc].  The closure built by [Subscribe] captures the
    broker by pointer and reads [n.opts.Codec] on each delivery, so the
    broker options current at delivery time are an argument. *)
Definition HandlerFunc := Options -> nsqMessage -> ShimRun.

(** Handles are indices into the client-side stores. *)
Definition ProducerH := nat.
Definition ConsumerH := nat.

(** [subscriber] *)
Record subscriber := mkSubscriber {
  s_topic : string;
  s_opts : SubscribeOptions;
  s_c : ConsumerH;
  s_h : HandlerFunc;
  s_n : Z
}.

Definition set_s_c (cm : ConsumerH) (s : subscriber) : subscriber :=
  mkSubscriber (s_topic s) (s_opts s) cm (s_h s) (s_n s).

(** [nsqBroker].  The slice [c] holds pointers to subscriber records; the
    only other pointers to those records are the handles returned by
    [Subscribe], and records are only ever appended, so a record is
    identified by its index in [c]. *)
Record nsqBroker := mkBroker {
  nsqdTCPAddrs : list string;
  lookupdHTTPAddrs : list string;
  opts : Options;
  config : Config;
  running : bool;
  p : list ProducerH;
  c : list subscriber
}.

Definition set_lookupdHTTPAddrs (v : list string) (n : nsqBroker) :=
  mkBroker (nsqdTCPAddrs n) v (opts n) (config n) (running n) (p n) (c n).
Definition set_opts (v : Options) (n : nsqBroker) :=
  mkBroker (nsqdTCPAddrs n) (lookupdHTTPAddrs n) v (config n) (running n) (p n) (c n).
Definition set_config (v : Config) (n : nsqBroker) :=
  mkBroker (nsqdTCPAddrs n) (lookupdHTTPAddrs n) (opts n) v (running n) (p n) (c n).
Definition set_running (v : bool) (n : nsqBroker) :=
  mkBroker (nsqdTCPAddrs n) (lookupdHTTPAddrs n) (opts n) (config n) v (p n) (c n).
Definition set_p (v : list ProducerH) (n : nsqBroker) :=
  mkBroker (nsqdTCPAddrs n) (lookupdHTTPAddrs n) (opts n) (config n) (running n) v (c n).
Definition set_c (v : list subscriber) (n : nsqBroker) :=
  mkBroker (nsqdTCPAddrs n) (lookupdHTTPAddrs n) (opts n) (config n) (running n) (p n) v.

(** ** The queue client *)

(** The four send operations of [nsq.Producer]. *)
Inductive Send :=
| SendPublish (topic : string) (body : bytes)
| SendPublishAsync (topic : string) (body : bytes) (doneChan : Chan)
| SendDeferredPublish (topic : string) (delay : Z) (body : bytes)
| SendDeferredPublishAsync (topic : string) (delay : Z) (body : bytes) (doneChan : Chan).

(** External calls, in the order they are made. *)
Inductive Event :=
| EvNewProducer (addr : string) (cfg : Config)
| EvPing (ph : ProducerH)
| EvProducerStop (ph : ProducerH)
| EvSend (ph : ProducerH) (op : Send)
| EvNewConsumer (topic channel : string) (cfg : Config)
| EvAddConcurrentHandlers (ch : ConsumerH) (h : HandlerFunc) (concurrency : Z)
| EvConnectToNSQLookupds (ch : ConsumerH) (addrs : list string)
| EvConnectToNSQDs (ch : ConsumerH) (addrs : list string)
| EvConsumerStop (ch : ConsumerH)
| EvDisconnectFromNSQLookupd (ch : ConsumerH) (addr : string)
| EvDisconnectFromNSQD (ch : ConsumerH) (addr : string)
| EvNewUUID
| EvIntn (bound : nat).

(** Client-side state of a producer handle. *)
Record Producer := mkProducer {
  pr_addr : string;
  pr_config : Config;
  pr_stopped : bool
}.

(** Client-side state of a consumer handle. *)
Record Consumer := mkConsumer {
  co_topic : string;
  co_channel : string;
  co_config : Config;
  co_handlers : list (HandlerFunc * Z);
  co_lookupds : list string;
  co_nsqds : list string;
  co_stopped : bool
}.

Record World := mkWorld {
  trace : list Event;
  producers : list Producer;
  consumers : list Consumer
}.

(** The behaviour of the collaborators.  The first argument of every
    oracle is the logical clock [length (trace w)] at the call. *)
Record Env := mkEnv {
  NewProducer_err : nat -> string -> Config -> option error;
  Ping_err : nat -> ProducerH -> option error;
  Send_err : nat -> ProducerH -> Send -> option error;
  NewConsumer_err : nat -> string -> string -> Config -> option error;
  ConnectToNSQLookupds_err : nat -> ConsumerH -> list string -> option error;
  ConnectToNSQDs_err : nat -> ConsumerH -> list string -> option error;
  NewUUID_string : nat -> string;
  Intn_raw : nat -> nat;
  ConfigFlag_Set : Config -> string -> Config;
  NewConfig : Config;
  json_NewCodec : Codec
}.

(** ** The state monad of the embedding *)

Record St := mkSt {
  broker : nsqBroker;
  world : World
}.

(** A Go call either returns or panics. *)
Inductive Res (A : Type) : Type :=
| Val (a : A)
| Panic (msg : string).
Arguments Val {A} a.
Arguments Panic {A} msg.

Definition M (A : Type) : Type := St -> Res A * St.

Definition ret {A : Type} (a : A) : M A := fun st => (Val a, st).

Definition bind {A B : Type} (m : M A) (k : A -> M B) : M B :=
  fun st =>
    match m st with
    | (Val a, st') => k a st'
    | (Panic msg, st') => (Panic msg, st')
    end.

Definition panic {A : Type} (msg : string) : M A := fun st => (Panic msg, st).

Declare Scope go_scope.
Delimit Scope go_scope with go.
Notation "x <- m ;; k" := (bind m (fun x => k))
  (at level 100, m at next level, right associativity) : go_scope.
Notation "m ;;; k" := (bind m (fun _ => k))
  (at level 100, right associativity) : go_scope.
Local Open Scope go_scope.

Definition get_broker : M nsqBroker := fun st => (Val (broker st), st).

Definition modify_broker (f : nsqBroker -> nsqBroker) : M unit :=
  fun st => (Val tt, mkSt (f (broker st)) (world st)).

Definition modify_world (f : World -> World) : M unit :=
  fun st => (Val tt, mkSt (broker st) (f (world st))).

Definition log (ev : Event) (w : World) : World :=
  mkWorld (trace w ++ [ev]) (producers w) (consumers w).

(** [for _, x := range l { f x }] without early exit. *)
Fixpoint for_each {A : Type} (l : list A) (f : A -> M unit) : M unit :=
  match l with
  | [] => ret tt
  | x :: rest => f x ;;; for_each rest f
  end.

Section Broker.

Variable E : Env.

(** *** Calls into the client *)

Definition set_pr_stopped (pr : Producer) : Producer :=
  mkProducer (pr_addr pr) (pr_config pr) true.

Definition add_handler (h : HandlerFunc) (n : Z) (co : Consumer) : Consumer :=
  mkConsumer (co_topic co) (co_channel co) (co_config co)
             (co_handlers co ++ [(h, n)]) (co_lookupds co) (co_nsqds co)
             (co_stopped co).

Definition add_lookupds (addrs : list string) (co : Consumer) : Consumer :=
  mkConsumer (co_topic co) (co_channel co) (co_config co) (co_handlers co)
             (co_lookupds co ++ addrs) (co_nsqds co) (co_stopped co).

Definition add_nsqds (addrs : list string) (co : Consumer) : Consumer :=
  mkConsumer (co_topic co) (co_channel co) (co_config co) (co_handlers co)
             (co_lookupds co) (co_nsqds co ++ addrs) (co_stopped co).

Definition drop_addr (addr : string) (l : list string) : list string :=
  List.filter (fun a => negb (String.eqb a addr)) l.

Definition del_lookupd (addr : string) (co : Consumer) : Consumer :=
  mkConsumer (co_topic co) (co_channel co) (co_config co) (co_handlers co)
             (drop_addr addr (co_lookupds co)) (co_nsqds co) (co_stopped co).

Definition del_nsqd (addr : string) (co : Consumer) : Consumer :=
  mkConsumer (co_topic co) (co_channel co) (co_config co) (co_handlers co)
             (co_lookupds co) (drop_addr addr (co_nsqds co)) (co_stopped co).

Definition set_co_stopped (co : Consumer) : Consumer :=
  mkConsumer (co_topic co) (co_channel co) (co_config co) (co_handlers co)
             (co_lookupds co) (co_nsqds co) true.

Definition alter_producer (f : Producer -> Producer) (ph : ProducerH) (w : World) : World :=
  mkWorld (trace w) (alter f ph (producers w)) (consumers w).

Definition alter_consumer (f : Consumer -> Consumer) (ch : ConsumerH) (w : World) : World :=
  mkWorld (trace w) (producers w) (alter f ch (consumers w)).

Definition push_producer (pr : Producer) (w : World) : World :=
  mkWorld (trace w) (producers w ++ [pr]) (consumers w).

Definition push_consumer (co : Consumer) (w : World) : World :=
  mkWorld (trace w) (producers w) (consumers w ++ [co]).

(** [nsq.NewProducer(addr, config)] *)
Definition nsq_NewProducer (addr : string) (cfg : Config) : M (result ProducerH) :=
  fun st =>
    let w := world st in
    let w' := log (EvNewProducer addr cfg) w in
    match NewProducer_err E (length (trace w)) addr cfg with
    | Some e => (Val (Err e), mkSt (broker st) w')
    | None =>
        (Val (Ok (length (producers w))),
         mkSt (broker st) (push_producer (mkProducer addr cfg false) w'))
    end.

(** [p.Ping()] *)
Definition Ping (ph : ProducerH) : M (option error) :=
  fun st =>
    let w := world st in
    (Val (Ping_err E (length (trace w)) ph), mkSt (broker st) (log (EvPing ph) w)).

(** [p.Stop()] *)
Definition Producer_Stop (ph : ProducerH) : M unit :=
  modify_world (fun w => alter_producer set_pr_stopped ph (log (EvProducerStop ph) w)).

(** [p.Publish], [p.PublishAsync], [p.DeferredPublish],
    [p.DeferredPublishAsync] *)
Definition Producer_Send (ph : ProducerH) (op : Send) : M (option error) :=
  fun st =>
    let w := world st in
    (Val (Send_err E (length (trace w)) ph op), mkSt (broker st) (log (EvSend ph op) w)).

(** [nsq.NewConsumer(topic, channel, config)] *)
Definition nsq_NewConsumer (topic channel : string) (cfg : Config) : M (result ConsumerH) :=
  fun st =>
    let w := world st in
    let w' := log (EvNewConsumer topic channel cfg) w in
    match NewConsumer_err E (length (trace w)) topic channel cfg with
    | Some e => (Val (Err e), mkSt (broker st) w')
    | None =>
        (Val (Ok (length (consumers w))),
         mkSt (broker st)
              (push_consumer (mkConsumer topic channel cfg [] [] [] false) w'))
    end.

(** [c.AddConcurrentHandlers(h, n)] *)
Definition AddConcurrentHandlers (ch : ConsumerH) (h : HandlerFunc) (n : Z) : M unit :=
  modify_world (fun w =>
    alter_consumer (add_handler h n) ch (log (EvAddConcurrentHandlers ch h n) w)).

(** [c.ConnectToNSQLookupds(addrs)] *)
Definition ConnectToNSQLookupds (ch : ConsumerH) (addrs : list string) : M (option error) :=
  fun st =>
    let w := world st in
    let w' := log (EvConnectToNSQLookupds ch addrs) w in
    match ConnectToNSQLookupds_err E (length (trace w)) ch addrs with
    | Some e => (Val (Some e), mkSt (broker st) w')
    | None => (Val None, mkSt (broker st) (alter_consumer (add_lookupds addrs) ch w'))
    end.

(** [c.ConnectToNSQDs(addrs)] *)
Definition ConnectToNSQDs (ch : ConsumerH) (addrs : list string) : M (option error) :=
  fun st =>
    let w := world st in
    let w' := log (EvConnectToNSQDs ch addrs) w in
    match ConnectToNSQDs_err E (length (trace w)) ch addrs with
    | Some e => (Val (Some e), mkSt (broker st) w')
    | None => (Val None, mkSt (broker st) (alter_consumer (add_nsqds addrs) ch w'))
    end.

(** [c.Stop()] *)
Definition Consumer_Stop (ch : ConsumerH) : M unit :=
  modify_world (fun w => alter_consumer set_co_stopped ch (log (EvConsumerStop ch) w)).

(** [c.DisconnectFromNSQLookupd(addr)]; the adapter drops its result. *)
Definition DisconnectFromNSQLookupd (ch : ConsumerH) (addr : string) : M unit :=
  modify_world (fun w =>
    alter_consumer (del_lookupd addr) ch (log (EvDisconnectFromNSQLookupd ch addr) w)).

(** [c.DisconnectFromNSQD(addr)]; the adapter drops its result. *)
Definition DisconnectFromNSQD (ch : ConsumerH) (addr : string) : M unit :=
  modify_world (fun w =>
    alter_consumer (del_nsqd addr) ch (log (EvDisconnectFromNSQD ch addr) w)).

(** [uuid.NewUUID().String()] *)
Definition uuid_NewUUID : M string :=
  fun st =>
    let w := world st in
    (Val (NewUUID_string E (length (trace w))), mkSt (broker st) (log EvNewUUID w)).

(** [rand.Intn(n)]: panics when [n <= 0], otherwise a value below [n]. *)
Definition rand_Intn (n : nat) : M nat :=
  match n with
  | O => panic "invalid argument to Intn"
  | S _ =>
      fun st =>
        let w := world st in
        (Val (Intn_raw E (length (trace w)) mod n)%nat,
         mkSt (broker st) (log (EvIntn n) w))
  end.

(** [l[i]]: a slice index expression panics out of range. *)
Definition index {A : Type} (l : list A) (i : nat) : M A :=
  match l !! i with
  | Some x => ret x
  | None => panic "index out of range"
  end.

(** *** Package-level values *)

Definition DefaultConcurrentHandlers : Z := 1.

Definition ephemeral (u : string) : string := u ++ "#ephemeral".

(** *** Init *)

(** [initByContext]: a nil context panics on [ctx.Value]. *)
Definition initByContext (ctx : option BrokerCtx) : M unit :=
  match ctx with
  | None => panic "invalid memory address or nil pointer dereference"
  | Some cv =>
      match ctx_lookupdHTTPAddrs cv with
      | Some v => modify_broker (set_lookupdHTTPAddrs v)
      | None => ret tt
      end ;;;
      match ctx_consumerOpts cv with
      | Some v =>
          for_each v (fun opt =>
            modify_broker (fun n => set_config (ConfigFlag_Set E (config n) opt) n))
      | None => ret tt
      end
  end.

Definition Init (os : list Option_) : M (option error) :=
  modify_broker (fun n => set_opts (apply_opts os (opts n)) n) ;;;
  n <- get_broker ;;
  initByContext (o_Context (opts n)) ;;;
  ret None.

(** *** Connect *)

(** The producer loop of [Connect]; [producers] is the local slice. *)
Fixpoint connect_producers (addrs : list string) (producers : list ProducerH)
  : M (result (list ProducerH)) :=
  match addrs with
  | [] => ret (Ok producers)
  | addr :: rest =>
      n <- get_broker ;;
      r <- nsq_NewProducer addr (config n) ;;
      match r with
      | Err err => ret (Err err)
      | Ok ph =>
          e <- Ping ph ;;
          match e with
          | Some err => ret (Err err)
          | None => connect_producers rest (producers ++ [ph])
          end
      end
  end.

(** [c.c = cm] on the record at index [i] of [n.c]. *)
Definition assign_consumer (i : nat) (cm : ConsumerH) : M unit :=
  modify_broker (fun n => set_c (alter (set_s_c cm) i (c n)) n).

(** The body of the consumer loop of [Connect], for the record [s] at
    index [i] of [n.c]; [Some err] is the early [return err]. *)
Definition connect_consumer (i : nat) (s : subscriber) : M (option error) :=
  n <- get_broker ;;
  channel <- (if (String.length (Queue (s_opts s)) =? 0)%nat
              then u <- uuid_NewUUID ;; ret (ephemeral u)
              else ret (Queue (s_opts s))) ;;
  r <- nsq_NewConsumer (s_topic s) channel (config n) ;;
  match r with
  | Err err => ret (Some err)
  | Ok cm =>
      AddConcurrentHandlers cm (s_h s) (s_n s) ;;;
      assign_consumer i cm ;;;
      if (0 <? length (lookupdHTTPAddrs n))%nat
      then ConnectToNSQLookupds cm (lookupdHTTPAddrs n) ;;; ret None
      else ConnectToNSQDs cm (nsqdTCPAddrs n)
  end.

(** The consumer loop of [Connect], from index [i] of [n.c]. *)
Fixpoint connect_consumers (i : nat) (cs : list subscriber) : M (option error) :=
  match cs with
  | [] => ret None
  | s :: rest =>
      e <- connect_consumer i s ;;
      match e with
      | Some err => ret (Some err)
      | None => connect_consumers (S i) rest
      end
  end.

Definition Connect : M (option error) :=
  n <- get_broker ;;
  if running n then ret None
  else
    r <- connect_producers (nsqdTCPAddrs n) [] ;;
    match r with
    | Err err => ret (Some err)
    | Ok producers =>
        n <- get_broker ;;
        e <- connect_consumers 0 (c n) ;;
        match e with
        | Some err => ret (Some err)
        | None =>
            modify_broker (set_p producers) ;;;
            modify_broker (set_running true) ;;;
            ret None
        end
    end.

(** *** Disconnect *)

Definition disconnect_consumer (n : nsqBroker) (s : subscriber) : M unit :=
  Consumer_Stop (s_c s) ;;;
  if (0 <? length (lookupdHTTPAddrs n))%nat
  then for_each (lookupdHTTPAddrs n) (fun addr => DisconnectFromNSQLookupd (s_c s) addr)
  else for_each (nsqdTCPAddrs n) (fun addr => DisconnectFromNSQD (s_c s) addr).

Definition Disconnect : M (option error) :=
  n <- get_broker ;;
  if negb (running n) then ret None
  else
    for_each (p n) Producer_Stop ;;;
    for_each (c n) (disconnect_consumer n) ;;;
    modify_broker (set_p []) ;;;
    modify_broker (set_running false) ;;;
    ret None.

(** *** Address *)

Definition Address : M string :=
  n <- get_broker ;;
  i <- rand_Intn (length (nsqdTCPAddrs n)) ;;
  index (nsqdTCPAddrs n) i.

(** *** Publish *)

(** The [doneChan] and [delay] locals of [Publish] after the look-ups in
    [options.Context]. *)
Definition publish_locals (options : PublishOptions) : Chan * Z :=
  match po_Context options with
  | None => (nilChan, 0)
  | Some cv =>
      (match ctx_asyncPublish cv with Some v => v | None => nilChan end,
       match ctx_deferredPublish cv with Some v => v | None => 0 end)
  end.

Definition Publish (topic : string) (message : Message) (os : list PublishOption)
  : M (option error) :=
  n <- get_broker ;;
  i <- rand_Intn (length (p n)) ;;
  ph <- index (p n) i ;;
  let options := apply_opts os (mkPublishOptions None) in
  let doneChan := fst (publish_locals options) in
  let delay := snd (publish_locals options) in
  match Marshal (o_Codec (opts n)) message with
  | Err err => ret (Some err)
  | Ok b =>
      if negb (Chan_is_nil doneChan)
      then
        if (0 <? delay)%Z
        then Producer_Send ph (SendDeferredPublishAsync topic delay b doneChan)
        else Producer_Send ph (SendPublishAsync topic b doneChan)
      else
        if (0 <? delay)%Z
        then Producer_Send ph (SendDeferredPublish topic delay b)
        else Producer_Send ph (SendPublish topic b)
  end.

(** *** Subscribe *)

(** The [concurrency] and [maxInFlight] locals of [Subscribe] after the
    look-ups in [options.Context]. *)
Definition subscribe_locals (options : SubscribeOptions) : Z * Z :=
  match so_Context options with
  | None => (DefaultConcurrentHandlers, DefaultConcurrentHandlers)
  | Some cv =>
      let cm :=
        match ctx_concurrentHandler cv with
        | Some v => (v, v)
        | None => (DefaultConcurrentHandlers, DefaultConcurrentHandlers)
        end in
      match ctx_maxInFlight cv with
      | Some v => (fst cm, v)
      | None => cm
      end
  end.

(** [nm.DisableAutoResponse()] *)
Definition DisableAutoResponse (nm : nsqMessage) : nsqMessage :=
  mkNsqMessage (nm_Body nm) true (nm_responded nm).

(** [nm.Finish()] *)
Definition Finish (nm : nsqMessage) : nsqMessage :=
  mkNsqMessage (nm_Body nm) (nm_autoResponseDisabled nm) true.

(** The closure [h] built by [Subscribe]: the dispatch shim. *)
Definition dispatch (options : SubscribeOptions) (handler : Handler) (topic : string)
  : HandlerFunc :=
  fun n_opts nm =>
    let nm1 := if negb (AutoAck options) then DisableAutoResponse nm else nm in
    match Unmarshal (o_Codec n_opts) (nm_Body nm1) with
    | Err err => mkShimRun nm1 [] (Some err)
    | Ok m =>
        let pb := mkPublication topic m nm1 in
        mkShimRun nm1 [pb] (handler pb)
    end.

Definition set_MaxInFlight (v : Z) (cfg : Config) : Config :=
  mkConfig v (cfg_flags cfg).

(** [Subscribe] returns the new record, identified by its index in
    [n.c]. *)
Definition Subscribe (topic : string) (handler : Handler) (os : list SubscribeOption)
  : M (result nat) :=
  let options := apply_opts os (mkSubscribeOptions true "" None) in
  let concurrency := fst (subscribe_locals options) in
  let maxInFlight := snd (subscribe_locals options) in
  channel <- (if (String.length (Queue options) =? 0)%nat
              then u <- uuid_NewUUID ;; ret (ephemeral u)
              else ret (Queue options)) ;;
  n <- get_broker ;;
  let config' := set_MaxInFlight maxInFlight (config n) in
  r <- nsq_NewConsumer topic channel config' ;;
  match r with
  | Err err => ret (Err err)
  | Ok cm =>
      let h := dispatch options handler topic in
      AddConcurrentHandlers cm h concurrency ;;;
      e <- (if (0 <? length (lookupdHTTPAddrs n))%nat
            then ConnectToNSQLookupds cm (lookupdHTTPAddrs n)
            else ConnectToNSQDs cm (nsqdTCPAddrs n)) ;;
      match e with
      | Some err => ret (Err err)
      | None =>
          let sub := mkSubscriber topic options cm h concurrency in
          n' <- get_broker ;;
          modify_broker (fun n => set_c (c n ++ [sub]) n) ;;;
          ret (Ok (length (c n')))
      end
  end.

(** *** Methods of publication and subscriber *)

Definition publication_Topic (pb : publication) : string := pub_topic pb.

Definition publication_Message (pb : publication) : Message := pub_m pb.

Definition publication_Ack (pb : publication) : publication * option error :=
  (mkPublication (pub_topic pb) (pub_m pb) (Finish (pub_nm pb)), None).

Definition subscriber_Options (s : subscriber) : SubscribeOptions := s_opts s.

Definition subscriber_Topic (s : subscriber) : string := s_topic s.

(** [Unsubscribe] on the record at index [sub] of [n.c]. *)
Definition Unsubscribe (sub : nat) : M (option error) :=
  n <- get_broker ;;
  s <- index (c n) sub ;;
  Consumer_Stop (s_c s) ;;;
  ret None.

(** *** NewBroker *)

Definition NewBroker (os : list Option_) : nsqBroker :=
  let options :=
    apply_opts os (mkOptions [] (json_NewCodec E) (Some (mkBrokerCtx None None))) in
  let addrs := List.filter (fun addr => (0 <? String.length addr)%nat) (Addrs options) in
  let addrs := if (length addrs =? 0)%nat then ["127.0.0.1:4150"] else addrs in
  mkBroker addrs [] options (NewConfig E) false [] [].

Definition String_ : string := "nsq".

(** The client before any call. *)
Definition empty_world : World := mkWorld [] [] [].

Definition initial (os : list Option_) : St := mkSt (NewBroker os) empty_world.

(** *** Sequences of public operations *)

Inductive Op :=
| OpInit (os : list Option_)
| OpConnect
| OpDisconnect
| OpPublish (topic : string) (message : Message) (os : list PublishOption)
| OpSubscribe (topic : string) (handler : Handler) (os : list SubscribeOption)
| OpUnsubscribe (sub : nat).

(** One public call; the state after a panic is the state at the panic. *)
Definition step (o : Op) (st : St) : St :=
  match o with
  | OpInit os => snd (Init os st)
  | OpConnect => snd (Connect st)
  | OpDisconnect => snd (Disconnect st)
  | OpPublish topic message os => snd (Publish topic message os st)
  | OpSubscribe topic handler os => snd (Subscribe topic handler os st)
  | OpUnsubscribe sub => snd (Unsubscribe sub st)
  end.

Definition run (ops : list Op) (st : St) : St := fold_left (fun s o => step o s) ops st.

End Broker.

(** ** Concrete collaborators, used to run the model *)

Definition codec_raw : Codec :=
  mkCodec (fun m => Ok (Body m)) (fun b => Ok (mkMessage [] b)).

Definition uuid_of (t : nat) : string :=
  "uuid-" ++ pretty t.

Definition default_config : Config := mkConfig 1 [].

(** A client on which every call succeeds. *)
Definition env_ok : Env :=
  mkEnv (fun _ _ _ => None) (fun _ _ => None) (fun _ _ _ => None)
        (fun _ _ _ _ => None) (fun _ _ _ => None) (fun _ _ _ => None)
        uuid_of (fun t => t) (fun cfg opt => mkConfig (MaxInFlight cfg) (cfg_flags cfg ++ [opt]))
        default_config codec_raw.

(** A client on which attaching the consumer with handle 1 to the nsqd
    addresses fails and every other call succeeds. *)
Definition env_attach_fails : Env :=
  mkEnv (fun _ _ _ => None) (fun _ _ => None) (fun _ _ _ => None)
        (fun _ _ _ _ => None) (fun _ _ _ => None)
        (fun _ ch _ => if (ch =? 1)%nat then Some "connection refused" else None)
        uuid_of (fun t => t) (fun cfg opt => mkConfig (MaxInFlight cfg) (cfg_flags cfg ++ [opt]))
        default_config codec_raw.

Definition with_Addrs (addrs : list string) : Option_ :=
  fun o => mkOptions addrs (o_Codec o) (o_Context o).

Definition with_Queue (q : string) : SubscribeOption :=
  fun o => mkSubscribeOptions (AutoAck o) q (so_Context o).

Definition with_concurrency (v : Z) : SubscribeOption :=
  fun o => mkSubscribeOptions (AutoAck o) (Queue o)
    (Some (mkSubscribeCtx (Some v)
       (match so_Context o with Some cv => ctx_maxInFlight cv | None => None end))).

Definition ok_handler : Handler := fun _ => None.

Definition msg_x : Message := mkMessage [] [Byte.x78].

(** Classification of the send operations. *)
Definition Send_is_async (op : Send) : bool :=
  match op with
  | SendPublishAsync _ _ _ | SendDeferredPublishAsync _ _ _ _ => true
  | SendPublish _ _ | SendDeferredPublish _ _ _ => false
  end.

Definition Send_is_deferred (op : Send) : bool :=
  match op with
  | SendDeferredPublish _ _ _ | SendDeferredPublishAsync _ _ _ _ => true
  | SendPublish _ _ | SendPublishAsync _ _ _ => false
  end.

Definition Send_topic (op : Send) : string :=
  match op with
  | SendPublish t _ | SendPublishAsync t _ _
  | SendDeferredPublish t _ _ | SendDeferredPublishAsync t _ _ _ => t
  end.

Definition Send_body (op : Send) : bytes :=
  match op with
  | SendPublish _ b | SendPublishAsync _ b _
  | SendDeferredPublish _ _ b | SendDeferredPublishAsync _ _ b _ => b
  end.

Definition Send_doneChan (op : Send) : Chan :=
  match op with
  | SendPublishAsync _ _ ch | SendDeferredPublishAsync _ _ _ ch => ch
  | SendPublish _ _ | SendDeferredPublish _ _ _ => nilChan
  end.

Definition Send_delay (op : Send) : Z :=
  match op with
  | SendDeferredPublish _ d _ | SendDeferredPublishAsync _ d _ _ => d
  | SendPublish _ _ | SendPublishAsync _ _ _ => 0
  end.

(** The connection part of the broker state. *)
Definition same_conn (n n' : nsqBroker) : Prop :=
  nsqdTCPAddrs n' = nsqdTCPAddrs n /\ running n' = running n /\ p n' = p n.

(** Everything but the consumer handles held by the subscription
    records. *)
Definition same_but_handles (n n' : nsqBroker) : Prop :=
  nsqdTCPAddrs n' = nsqdTCPAddrs n /\
  lookupdHTTPAddrs n' = lookupdHTTPAddrs n /\
  opts n' = opts n /\
  config n' = config n /\
  running n' = running n /\
  p n' = p n /\
  Forall2 (fun s s' => exists cm, s' = set_s_c cm s) (c n) (c n').

(** [running] agrees with the producer pool, whose size is the number of
    configured addresses. *)
Definition conn_inv (n : nsqBroker) : Prop :=
  nsqdTCPAddrs n <> [] /\
  (running n = true -> length (p n) = length (nsqdTCPAddrs n)) /\
  (running n = false -> p n = []).

(** A computation whose effect on the broker stays within [R]. *)
Definition keeps {A : Type} (R : relation nsqBroker) (m : M A) : Prop :=
  forall st, R (broker st) (broker (snd (m st))).

(** A computation that never panics. *)
Definition returns {A : Type} (m : M A) : Prop :=
  forall st, exists a, fst (m st) = Val a.

(** The state [st] with another [running] flag and producer pool. *)
Definition with_conn (r : bool) (ps : list ProducerH) (st : St) : St :=
  mkSt (set_running r (set_p ps (broker st))) (world st).

(** The channel a subscription with the given options is attached to when
    its consumer is created in state [st]: the caller's group name, or a
    fresh ephemeral name. *)
Definition resolve_channel (E : Env) (options : SubscribeOptions) (st : St) : string :=
  if (String.length (Queue options) =? 0)%nat
  then ephemeral (NewUUID_string E (length (trace (world st))))
  else Queue options.

(** The call made to obtain that channel, if any. *)
Definition channel_events (options : SubscribeOptions) : list Event :=
  if (String.length (Queue options) =? 0)%nat then [EvNewUUID] else [].

(** What attaching a consumer records on it: the discovery addresses when
    there are some, the direct addresses otherwise. *)
Definition attached_lookupds (n : nsqBroker) : list string :=
  if (0 <? length (lookupdHTTPAddrs n))%nat then lookupdHTTPAddrs n else [].

Definition attached_nsqds (n : nsqBroker) : list string :=
  if (0 <? length (lookupdHTTPAddrs n))%nat then [] else nsqdTCPAddrs n.

Definition attach_event (n : nsqBroker) (cm : ConsumerH) : Event :=
  if (0 <? length (lookupdHTTPAddrs n))%nat
  then EvConnectToNSQLookupds cm (lookupdHTTPAddrs n)
  else EvConnectToNSQDs cm (nsqdTCPAddrs n).

(** An error produced by the queue client when creating or attaching a
    consumer. *)
Definition consumer_error (E : Env) (e : error) : Prop :=
  (exists t topic channel cfg, NewConsumer_err E t topic channel cfg = Some e) \/
  (exists t ch addrs, ConnectToNSQLookupds_err E t ch addrs = Some e) \/
  (exists t ch addrs, ConnectToNSQDs_err E t ch addrs = Some e).

(** The options a [Subscribe] call resolves. *)
Definition subscribe_options (os : list SubscribeOption) : SubscribeOptions :=
  apply_opts os (mkSubscribeOptions true "" None).

(** The per-subscribe concurrency and max-in-flight options, when the
    caller supplied them. *)
Definition option_concurrency (options : SubscribeOptions) : option Z :=
  match so_Context options with
  | Some cv => ctx_concurrentHandler cv
  | None => None
  end.

Definition option_maxInFlight (options : SubscribeOptions) : option Z :=
  match so_Context options with
  | Some cv => ctx_maxInFlight cv
  | None => None
  end.

(** Resolution of the two values as the specification words it:
    concurrency defaults to 1, max-in-flight defaults to the concurrency. *)
Definition spec_concurrency (options : SubscribeOptions) : Z :=
  match option_concurrency options with
  | Some v => v
  | None => 1
  end.

Definition spec_maxInFlight (options : SubscribeOptions) : Z :=
  match option_maxInFlight options with
  | Some v => v
  | None => spec_concurrency options
  end.

(** The consumer [co] is the live consumer that [Connect], started on
    broker [n] at clock [since], creates for the record [s]: it is for the
    record's topic, on the caller's group name or else on a fresh ephemeral
    channel, with the broker's shared configuration, carries the record's
    shim with the record's concurrency, is not stopped, and is attached to
    the direct addresses when no discovery address is configured (the
    result of attaching to discovery addresses is dropped by [Connect]). *)
Definition reconnected (E : Env) (n : nsqBroker) (s : subscriber) (since : nat)
    (co : Consumer) : Prop :=
  co_topic co = s_topic s /\
  (if (String.length (Queue (s_opts s)) =? 0)%nat
   then exists t, (since <= t)%nat /\ co_channel co = ephemeral (NewUUID_string E t)
   else co_channel co = Queue (s_opts s)) /\
  co_config co = config n /\
  co_handlers co = [(s_h s, s_n s)] /\
  co_stopped co = false /\
  co_nsqds co = attached_nsqds n /\
  (co_lookupds co = attached_lookupds n \/ co_lookupds co = []).

(** The client keeps its consumer handles, and a stopped consumer stays
    stopped. *)
Definition stop_mono (w w' : World) : Prop :=
  Forall2 (fun co co' => co_stopped co = true -> co_stopped co' = true)
          (consumers w) (consumers w').

(** A computation under which stopped consumers stay stopped. *)
Definition steady {A : Type} (m : M A) : Prop :=
  forall st, stop_mono (world st) (world (snd (m st))).

(** The consumer currently held by the record at index [i] of [n.c],
    and its channel. *)
Definition record_consumer (st : St) (i : nat) : option Consumer :=
  match c (broker st) !! i with
  | Some s => consumers (world st) !! s_c s
  | None => None
  end.

Definition record_channel (st : St) (i : nat) : option string :=
  match record_consumer st i with
  | Some co => Some (co_channel co)
  | None => None
  end.

(** A run on the all-success client: connect to two addresses, subscribe
    without a group name, disconnect, connect again. *)
Definition st_fresh : St := initial env_ok [with_Addrs ["a:1"; "b:2"]].
Definition st_connected : St := snd (Connect env_ok st_fresh).
Definition st_subscribed : St :=
  snd (Subscribe env_ok "orders" ok_handler [] st_connected).
Definition st_disconnected : St := snd (Disconnect st_subscribed).
Definition st_reconnected : St := snd (Connect env_ok st_disconnected).

(** A subscription made before any [Connect], on the client whose second
    consumer cannot be attached. *)
Definition st_early_sub : St :=
  snd (Subscribe env_attach_fails "orders" ok_handler [] (initial env_attach_fails [])).

(** ** Further observations on the client *)

(** A computation whose effect on the client stays within [R]. *)
Definition keeps_world {A : Type} (R : relation World) (m : M A) : Prop :=
  forall st, R (world st) (world (snd (m st))).

(** The trace of [w'] is the trace of [w] followed by calls that all
    satisfy [P]. *)
Definition trace_ext (P : Event -> bool) (w w' : World) : Prop :=
  exists evs, trace w' = trace w ++ evs /\ forallb P evs = true.

(** The kinds of client calls. *)
Definition is_create_call (ev : Event) : bool :=
  match ev with
  | EvNewProducer _ _ | EvPing _ | EvNewUUID | EvNewConsumer _ _ _
  | EvAddConcurrentHandlers _ _ _ | EvConnectToNSQLookupds _ _
  | EvConnectToNSQDs _ _ => true
  | _ => false
  end.

Definition is_consumer_create_call (ev : Event) : bool :=
  match ev with
  | EvNewUUID | EvNewConsumer _ _ _ | EvAddConcurrentHandlers _ _ _
  | EvConnectToNSQLookupds _ _ | EvConnectToNSQDs _ _ => true
  | _ => false
  end.

Definition is_teardown_call (ev : Event) : bool :=
  match ev with
  | EvProducerStop _ | EvConsumerStop _ | EvDisconnectFromNSQLookupd _ _
  | EvDisconnectFromNSQD _ _ => true
  | _ => false
  end.

Definition is_publish_call (ev : Event) : bool :=
  match ev with
  | EvIntn _ | EvSend _ _ => true
  | _ => false
  end.

Definition is_consumer_stop (ev : Event) : bool :=
  match ev with
  | EvConsumerStop _ => true
  | _ => false
  end.

Definition no_call (ev : Event) : bool := false.

(** The calls a public operation may make. *)
Definition op_calls (o : Op) : Event -> bool :=
  match o with
  | OpInit _ => no_call
  | OpConnect => is_create_call
  | OpDisconnect => is_teardown_call
  | OpPublish _ _ _ => is_publish_call
  | OpSubscribe _ _ _ => is_consumer_create_call
  | OpUnsubscribe _ => is_consumer_stop
  end.

(** The options [NewBroker] starts from: no address, the JSON codec, the
    background context. *)
Definition default_options (E : Env) : Options :=
  mkOptions [] (json_NewCodec E) (Some (mkBrokerCtx None None)).

Definition nonempty (s : string) : bool := (0 <? String.length s)%nat.

(** The discovery addresses and client options an options value carries
    in its context. *)
Definition context_lookupds (o : Options) : option (list string) :=
  match o_Context o with
  | Some cv => ctx_lookupdHTTPAddrs cv
  | None => None
  end.

Definition context_consumerOpts (o : Options) : list string :=
  match o_Context o with
  | Some cv => match ctx_consumerOpts cv with Some v => v | None => [] end
  | None => []
  end.

Definition with_lookupds (v : list string) : Option_ :=
  fun o => mkOptions (Addrs o) (o_Codec o)
    (Some (mkBrokerCtx (Some v)
       (match o_Context o with Some cv => ctx_consumerOpts cv | None => None end))).

Definition with_nil_context : Option_ :=
  fun o => mkOptions (Addrs o) (o_Codec o) None.

(** The calls [Disconnect] makes for one record and for the whole broker. *)
Definition detach_events (n : nsqBroker) (s : subscriber) : list Event :=
  EvConsumerStop (s_c s) ::
  (if (0 <? length (lookupdHTTPAddrs n))%nat
   then map (EvDisconnectFromNSQLookupd (s_c s)) (lookupdHTTPAddrs n)
   else map (EvDisconnectFromNSQD (s_c s)) (nsqdTCPAddrs n)).

Definition teardown_events (n : nsqBroker) : list Event :=
  map EvProducerStop (p n) ++ flat_map (detach_events n) (c n).



(** The client holds the same handles in the same state. *)
Definition same_stores (w w' : World) : Prop :=
  producers w' = producers w /\ consumers w' = consumers w.

(** The client keeps its producers as they are. *)
Definition same_producers (w w' : World) : Prop := producers w' = producers w.

(** A client on which attaching to discovery addresses always fails and
    every other call succeeds. *)
Definition env_lookupd_fails : Env :=
  mkEnv (fun _ _ _ => None) (fun _ _ => None) (fun _ _ _ => None)
        (fun _ _ _ _ => None) (fun _ _ _ => Some "lookupd unreachable")
        (fun _ _ _ => None)
        uuid_of (fun t => t) (fun cfg opt => mkConfig (MaxInFlight cfg) (cfg_flags cfg ++ [opt]))
        default_config codec_raw.

(** A record made before discovery addresses are set by [Init]. *)
Definition st_lookupd : St :=
  run env_lookupd_fails
      [OpSubscribe "orders" ok_handler []; OpInit [with_lookupds ["lookupd:4161"]]]
      (initial env_lookupd_fails []).

Definition with_maxInFlight (v : Z) : SubscribeOption :=
  fun o => mkSubscribeOptions (AutoAck o) (Queue o)
    (Some (mkSubscribeCtx
       (match so_Context o with Some cv => ctx_concurrentHandler cv | None => None end)
       (Some v))).

(** A codec that cannot encode or decode. *)
Definition codec_failing : Codec :=
  mkCodec (fun _ => Err "unsupported") (fun _ => Err "unsupported").

Definition with_Codec (cd : Codec) : Option_ :=
  fun o => mkOptions (Addrs o) cd (o_Context o).

(** A connected broker whose codec fails. *)
Definition st_failing_codec : St :=
  snd (Connect env_ok (initial env_ok [with_Codec codec_failing])).

(** An error produced by the queue client when opening or probing a
    producer. *)
Definition producer_error (E : Env) (e : error) : Prop :=
  (exists t addr cfg, NewProducer_err E t addr cfg = Some e) \/
  (exists t ph, Ping_err E t ph = Some e).

(** ** Properties *)

(** *** Framing *)

Section Keeps.

Context (R : relation nsqBroker) `{!PreOrder R}.

Lemma keeps_ret {A : Type} (a : A) : keeps R (ret a).
Proof. intros st. simpl. reflexivity. Qed.

Lemma keeps_panic {A : Type} (msg : string) : keeps R (@panic A msg).
Proof. intros st. simpl. reflexivity. Qed.

Lemma keeps_bind {A B : Type} (m : M A) (k : A -> M B) :
  keeps R m -> (forall a, keeps R (k a)) -> keeps R (bind m k).
Proof.
  intros Hm Hk st. unfold bind.
  specialize (Hm st). destruct (m st) as [[a | msg] st1]; simpl in *.
  - etransitivity; [exact Hm | apply Hk].
  - exact Hm.
Qed.

Lemma keeps_for_each {A : Type} (l : list A) (f : A -> M unit) :
  (forall x, keeps R (f x)) -> keeps R (for_each l f).
Proof.
  intros Hf. induction l as [| x l IH]; simpl.
  - apply keeps_ret.
  - apply keeps_bind; [apply Hf | intros _; exact IH].
Qed.

Lemma keeps_get_broker : keeps R get_broker.
Proof. intros st. simpl. reflexivity. Qed.

Lemma keeps_modify_world (f : World -> World) : keeps R (modify_world f).
Proof. intros st. simpl. reflexivity. Qed.

Lemma keeps_modify_broker (f : nsqBroker -> nsqBroker) :
  (forall n, R n (f n)) -> keeps R (modify_broker f).
Proof. intros Hf st. simpl. apply Hf. Qed.

Lemma keeps_index {A : Type} (l : list A) (i : nat) : keeps R (index l i).
Proof. unfold index. destruct (l !! i); [apply keeps_ret | apply keeps_panic]. Qed.

Variable E : Env.

Lemma keeps_NewProducer addr cfg : keeps R (nsq_NewProducer E addr cfg).
Proof. intros st. unfold nsq_NewProducer. destruct (NewProducer_err _ _ _ _); simpl; reflexivity. Qed.

Lemma keeps_Ping ph : keeps R (Ping E ph).
Proof. intros st. simpl. reflexivity. Qed.

Lemma keeps_Send ph op : keeps R (Producer_Send E ph op).
Proof. intros st. simpl. reflexivity. Qed.

Lemma keeps_NewConsumer topic channel cfg : keeps R (nsq_NewConsumer E topic channel cfg).
Proof. intros st. unfold nsq_NewConsumer. destruct (NewConsumer_err _ _ _ _ _); simpl; reflexivity. Qed.

Lemma keeps_ConnectToNSQLookupds ch addrs : keeps R (ConnectToNSQLookupds E ch addrs).
Proof.
  intros st. unfold ConnectToNSQLookupds.
  destruct (ConnectToNSQLookupds_err _ _ _ _); simpl; reflexivity.
Qed.

Lemma keeps_ConnectToNSQDs ch addrs : keeps R (ConnectToNSQDs E ch addrs).
Proof.
  intros st. unfold ConnectToNSQDs.
  destruct (ConnectToNSQDs_err _ _ _ _); simpl; reflexivity.
Qed.

Lemma keeps_NewUUID : keeps R (uuid_NewUUID E).
Proof. intros st. simpl. reflexivity. Qed.

Lemma keeps_Intn n : keeps R (rand_Intn E n).
Proof. destruct n; [apply keeps_panic |]. intros st. simpl. reflexivity. Qed.

End Keeps.

Create HintDb frame.
#[export] Hint Resolve keeps_ret keeps_panic keeps_for_each keeps_get_broker
  keeps_modify_world keeps_index keeps_NewProducer keeps_Ping keeps_Send
  keeps_NewConsumer keeps_ConnectToNSQLookupds keeps_ConnectToNSQDs
  keeps_NewUUID keeps_Intn : frame.

(** Walks through a straight-line computation, leaving the broker updates
    as goals. *)
Ltac frame_step :=
  first
    [ apply keeps_bind; [solve [eauto with frame] | | intros ?]
    | apply keeps_for_each; [solve [eauto with frame] | intros ?]
    | match goal with
      | |- keeps _ (if ?b then _ else _) => destruct b
      | |- keeps _ (match ?x with _ => _ end) => destruct x
      end
    | solve [eauto with frame] ].

Ltac frame := repeat frame_step.

Section KeepsClient.

Context (R : relation nsqBroker) `{!PreOrder R}.
Variable E : Env.

Lemma keeps_Producer_Stop ph : keeps R (Producer_Stop ph).
Proof. apply keeps_modify_world; assumption. Qed.

Lemma keeps_Consumer_Stop ch : keeps R (Consumer_Stop ch).
Proof. apply keeps_modify_world; assumption. Qed.

Lemma keeps_AddConcurrentHandlers ch h n : keeps R (AddConcurrentHandlers ch h n).
Proof. apply keeps_modify_world; assumption. Qed.

Lemma keeps_DisconnectFromNSQLookupd ch addr : keeps R (DisconnectFromNSQLookupd ch addr).
Proof. apply keeps_modify_world; assumption. Qed.

Lemma keeps_DisconnectFromNSQD ch addr : keeps R (DisconnectFromNSQD ch addr).
Proof. apply keeps_modify_world; assumption. Qed.

Lemma keeps_connect_producers addrs acc : keeps R (connect_producers E addrs acc).
Proof.
  revert acc. induction addrs as [| addr rest IH]; intros acc; simpl; frame.
Qed.

Lemma keeps_disconnect_consumer n s : keeps R (disconnect_consumer n s).
Proof.
  unfold disconnect_consumer, Consumer_Stop, DisconnectFromNSQLookupd,
    DisconnectFromNSQD.
  frame.
Qed.

End KeepsClient.

#[export] Hint Resolve keeps_Producer_Stop keeps_Consumer_Stop
  keeps_AddConcurrentHandlers keeps_DisconnectFromNSQLookupd
  keeps_DisconnectFromNSQD keeps_connect_producers keeps_disconnect_consumer : frame.

Lemma same_conn_preorder : PreOrder same_conn.
Proof.
  split.
  - intros n. unfold same_conn. auto.
  - intros n1 n2 n3 (Ha & Hr & Hp) (Ha' & Hr' & Hp'). unfold same_conn.
    repeat split; congruence.
Qed.

Lemma set_s_c_id s : set_s_c (s_c s) s = s.
Proof. destruct s; reflexivity. Qed.

Lemma same_but_handles_preorder : PreOrder same_but_handles.
Proof.
  split.
  - intros n. unfold same_but_handles. repeat split; auto.
    induction (c n) as [| s l IH]; constructor; auto.
    exists (s_c s). symmetry. apply set_s_c_id.
  - intros n1 n2 n3 (A1 & A2 & A3 & A4 & A5 & A6 & A7)
                     (B1 & B2 & B3 & B4 & B5 & B6 & B7).
    unfold same_but_handles. repeat split; try congruence.
    clear - A7 B7. revert B7. generalize (c n3).
    induction A7 as [| s s' l l' [cm Hs] _ IH]; intros l3 B7.
    + inversion B7. constructor.
    + inversion B7 as [| ? s3 ? l3' [cm' Hs3] Hrest]; subst.
      constructor; [exists cm'; reflexivity | apply IH; assumption].
Qed.

Lemma same_but_handles_conn n n' : same_but_handles n n' -> same_conn n n'.
Proof. intros (A1 & _ & _ & _ & A5 & A6 & _). repeat split; assumption. Qed.

Lemma broker_eq_preorder : PreOrder (@eq nsqBroker).
Proof. split; [intros n; reflexivity | intros n1 n2 n3; apply eq_trans]. Qed.

#[export] Hint Resolve same_conn_preorder same_but_handles_preorder
  broker_eq_preorder : frame.

Lemma Forall2_alter_handle cm i (l : list subscriber) :
  Forall2 (fun s s' => exists cm', s' = set_s_c cm' s) l (alter (set_s_c cm) i l).
Proof.
  revert i. induction l as [| s l IH]; intros i; simpl.
  - constructor.
  - destruct i as [| i]; simpl; constructor.
    + exists cm. reflexivity.
    + clear. induction l as [| s' l IH]; constructor; auto.
      exists (s_c s'). symmetry. apply set_s_c_id.
    + exists (s_c s). symmetry. apply set_s_c_id.
    + apply IH.
Qed.

Section Lifecycle.

Variable E : Env.

Lemma keeps_assign_consumer i cm : keeps same_but_handles (assign_consumer i cm).
Proof.
  apply keeps_modify_broker. intros n. unfold same_but_handles. simpl.
  repeat split; auto. apply Forall2_alter_handle.
Qed.

Lemma keeps_connect_consumer i s : keeps same_but_handles (connect_consumer E i s).
Proof. unfold connect_consumer. frame; apply keeps_assign_consumer. Qed.

Lemma keeps_connect_consumers cs i : keeps same_but_handles (connect_consumers E i cs).
Proof.
  revert i. induction cs as [| s rest IH]; intros i; cbn [connect_consumers]; frame.
  apply keeps_assign_consumer.
Qed.

(** Calls that only talk to the client leave the broker as it is. *)
Lemma Publish_broker topic message os : keeps eq (Publish E topic message os).
Proof. unfold Publish. frame. Qed.

Lemma Unsubscribe_broker sub : keeps eq (Unsubscribe sub).
Proof. unfold Unsubscribe. frame. Qed.

Lemma Init_conn os : keeps same_conn (Init E os).
Proof.
  unfold Init, initByContext. frame;
    apply keeps_modify_broker; intros n; repeat split; reflexivity.
Qed.

Lemma Subscribe_conn topic handler os : keeps same_conn (Subscribe E topic handler os).
Proof.
  unfold Subscribe. frame.
  apply keeps_modify_broker; intros n; repeat split; reflexivity.
Qed.

End Lifecycle.

(** *** Termination without panic *)

Lemma returns_ret {A : Type} (a : A) : returns (ret a).
Proof. intros st. exists a. reflexivity. Qed.

Lemma returns_bind {A B : Type} (m : M A) (k : A -> M B) :
  returns m -> (forall a, returns (k a)) -> returns (bind m k).
Proof.
  intros Hm Hk st. unfold bind. destruct (Hm st) as [a Ha].
  destruct (m st) as [r st1]. simpl in Ha. subst r. apply Hk.
Qed.

Lemma returns_for_each {A : Type} (l : list A) (f : A -> M unit) :
  (forall x, returns (f x)) -> returns (for_each l f).
Proof.
  intros Hf. induction l as [| x l IH]; simpl.
  - apply returns_ret.
  - apply returns_bind; [apply Hf | intros _; exact IH].
Qed.

Lemma returns_get_broker : returns get_broker.
Proof. intros st. eexists. reflexivity. Qed.

Lemma returns_modify_broker f : returns (modify_broker f).
Proof. intros st. eexists. reflexivity. Qed.

Lemma returns_modify_world f : returns (modify_world f).
Proof. intros st. eexists. reflexivity. Qed.

Lemma returns_NewProducer E addr cfg : returns (nsq_NewProducer E addr cfg).
Proof.
  intros st. unfold nsq_NewProducer.
  destruct (NewProducer_err _ _ _ _); eexists; reflexivity.
Qed.

Lemma returns_Ping E ph : returns (Ping E ph).
Proof. intros st. eexists. reflexivity. Qed.

Lemma returns_Send E ph op : returns (Producer_Send E ph op).
Proof. intros st. eexists. reflexivity. Qed.

Lemma returns_NewConsumer E topic channel cfg : returns (nsq_NewConsumer E topic channel cfg).
Proof.
  intros st. unfold nsq_NewConsumer.
  destruct (NewConsumer_err _ _ _ _ _); eexists; reflexivity.
Qed.

Lemma returns_ConnectToNSQLookupds E ch addrs : returns (ConnectToNSQLookupds E ch addrs).
Proof.
  intros st. unfold ConnectToNSQLookupds.
  destruct (ConnectToNSQLookupds_err _ _ _ _); eexists; reflexivity.
Qed.

Lemma returns_ConnectToNSQDs E ch addrs : returns (ConnectToNSQDs E ch addrs).
Proof.
  intros st. unfold ConnectToNSQDs.
  destruct (ConnectToNSQDs_err _ _ _ _); eexists; reflexivity.
Qed.

Lemma returns_NewUUID E : returns (uuid_NewUUID E).
Proof. intros st. eexists. reflexivity. Qed.

Create HintDb total.
#[export] Hint Resolve returns_ret returns_get_broker returns_modify_broker
  returns_modify_world returns_NewProducer returns_Ping returns_Send
  returns_NewConsumer returns_ConnectToNSQLookupds returns_ConnectToNSQDs
  returns_NewUUID : total.

Ltac total_step :=
  first
    [ apply returns_bind; [| intros ?]
    | apply returns_for_each; intros ?
    | match goal with
      | |- returns (if ?b then _ else _) => destruct b
      | |- returns (match ?x with _ => _ end) => destruct x
      end
    | solve [eauto with total] ].

Ltac total := repeat total_step.

Lemma returns_connect_producers E addrs acc : returns (connect_producers E addrs acc).
Proof. revert acc. induction addrs as [| addr rest IH]; intros acc; simpl; total. Qed.

Lemma returns_AddConcurrentHandlers ch h n : returns (AddConcurrentHandlers ch h n).
Proof. apply returns_modify_world. Qed.

Lemma returns_assign_consumer i cm : returns (assign_consumer i cm).
Proof. apply returns_modify_broker. Qed.

#[export] Hint Resolve returns_AddConcurrentHandlers returns_assign_consumer : total.

Lemma returns_connect_consumer E i s : returns (connect_consumer E i s).
Proof. unfold connect_consumer. total. Qed.

Lemma returns_connect_consumers E cs i : returns (connect_consumers E i cs).
Proof.
  revert i. induction cs as [| s rest IH]; intros i; cbn [connect_consumers]; total.
Qed.

Lemma returns_disconnect_consumer n s : returns (disconnect_consumer n s).
Proof.
  unfold disconnect_consumer, Consumer_Stop, DisconnectFromNSQLookupd,
    DisconnectFromNSQD.
  total.
Qed.

#[export] Hint Resolve returns_connect_producers returns_connect_consumers
  returns_disconnect_consumer : total.

Lemma Connect_returns E : returns (Connect E).
Proof. unfold Connect. total. Qed.

Lemma Disconnect_returns : returns Disconnect.
Proof. unfold Disconnect, Producer_Stop. total. Qed.

Lemma Subscribe_returns E topic handler os : returns (Subscribe E topic handler os).
Proof. unfold Subscribe, AddConcurrentHandlers. total. Qed.

(** Splitting a run at a bind. *)
Lemma bind_run {A B : Type} (m : M A) (k : A -> M B) st :
  bind m k st =
  match m st with
  | (Val a, st1) => k a st1
  | (Panic msg, st1) => (Panic msg, st1)
  end.
Proof. reflexivity. Qed.

Lemma bind_get_broker {B : Type} (k : nsqBroker -> M B) st :
  bind get_broker k st = k (broker st) st.
Proof. reflexivity. Qed.

(** The outcome of a computation that returns and keeps the broker
    within [R]. *)
Lemma run_cases {A : Type} (R : relation nsqBroker) (m : M A) st :
  returns m -> keeps R m ->
  exists a st1, m st = (Val a, st1) /\ R (broker st) (broker st1).
Proof.
  intros Hr Hk. destruct (Hr st) as [a Ha]. specialize (Hk st).
  destruct (m st) as [r st1]. simpl in *. subst r. eauto.
Qed.

(** *** Connect and Disconnect *)

Section ConnectDisconnect.

Variable E : Env.

Lemma connect_producers_length addrs acc st ps st' :
  connect_producers E addrs acc st = (Val (Ok ps), st') ->
  length ps = (length acc + length addrs)%nat.
Proof.
  revert acc st. induction addrs as [| addr rest IH]; intros acc st; simpl.
  - unfold ret. intros H. injection H as <- _. lia.
  - rewrite bind_get_broker, bind_run.
    destruct (nsq_NewProducer E addr (config (broker st)) st) as [[[ph | err] | msg] st1];
      try discriminate.
    rewrite bind_run.
    destruct (Ping E ph st1) as [[[err |] | msg] st2]; try discriminate.
    intros H. apply IH in H. rewrite H, length_app. simpl. lia.
Qed.

(** A call of [Connect] on a running broker does nothing. *)
Lemma Connect_running st :
  running (broker st) = true -> Connect E st = (Val None, st).
Proof. intros H. unfold Connect. rewrite bind_get_broker, H. reflexivity. Qed.

(** A call of [Connect] on a broker that is not running. *)
Lemma Connect_not_running st :
  running (broker st) = false ->
  exists r st', Connect E st = (Val r, st') /\
    match r with
    | Some _ => same_but_handles (broker st) (broker st')
    | None =>
        exists ps n1,
          same_but_handles (broker st) n1 /\
          length ps = length (nsqdTCPAddrs (broker st)) /\
          broker st' = set_running true (set_p ps n1)
    end.
Proof.
  intros Hrun. unfold Connect. rewrite bind_get_broker, Hrun, bind_run.
  destruct (run_cases eq (connect_producers E (nsqdTCPAddrs (broker st)) []) st)
    as (r & st1 & Hp & Hb1); [apply returns_connect_producers | frame |].
  rewrite Hp. destruct r as [ps | err].
  - rewrite bind_get_broker, bind_run.
    destruct (run_cases same_but_handles (connect_consumers E 0 (c (broker st1))) st1)
      as (e & st2 & Hc & Hb2);
      [apply returns_connect_consumers | apply keeps_connect_consumers |].
    rewrite Hc. destruct e as [err |].
    + exists (Some err), st2. split; [reflexivity |]. rewrite Hb1. exact Hb2.
    + eexists None, _. split; [reflexivity |].
      exists ps, (broker st2). rewrite Hb1. split; [exact Hb2 |].
      split; [| reflexivity].
      apply connect_producers_length in Hp. simpl in Hp. rewrite <- Hb1. exact Hp.
  - exists (Some err), st1. split; [reflexivity |]. rewrite <- Hb1.
    apply same_but_handles_preorder.
Qed.

Lemma Disconnect_not_running st :
  running (broker st) = false -> Disconnect st = (Val None, st).
Proof. intros H. unfold Disconnect. rewrite bind_get_broker, H. reflexivity. Qed.

Lemma Disconnect_running st :
  running (broker st) = true ->
  exists st', Disconnect st = (Val None, st') /\
    broker st' = set_running false (set_p [] (broker st)).
Proof.
  intros Hrun. unfold Disconnect. rewrite bind_get_broker, Hrun. cbn [negb].
  rewrite bind_run.
  destruct (run_cases eq (for_each (p (broker st)) Producer_Stop) st)
    as ([] & st1 & H1 & Hb1); [unfold Producer_Stop; total | frame |].
  rewrite H1, bind_run.
  destruct (run_cases eq (for_each (c (broker st)) (disconnect_consumer (broker st))) st1)
    as ([] & st2 & H2 & Hb2); [total | frame |].
  rewrite H2. eexists. split; [reflexivity |]. simpl. congruence.
Qed.

End ConnectDisconnect.

(** *** The connection invariant *)

Section Invariant.

Variable E : Env.

Lemma NewBroker_addrs os : nsqdTCPAddrs (NewBroker E os) <> [].
Proof.
  unfold NewBroker. simpl.
  destruct (List.filter _ _) as [| a l]; simpl; discriminate.
Qed.

Lemma conn_inv_NewBroker os : conn_inv (NewBroker E os).
Proof.
  split; [apply NewBroker_addrs |]. unfold NewBroker. simpl.
  split; [discriminate | reflexivity].
Qed.

Lemma conn_inv_same_conn n n' : same_conn n n' -> conn_inv n -> conn_inv n'.
Proof.
  intros (Ha & Hr & Hp) (I1 & I2 & I3). unfold conn_inv.
  rewrite Ha, Hr, Hp. auto.
Qed.

Lemma conn_inv_Connect st : conn_inv (broker st) -> conn_inv (broker (snd (Connect E st))).
Proof.
  intros Hinv. destruct (running (broker st)) eqn:Hrun.
  - rewrite Connect_running by assumption. exact Hinv.
  - destruct (Connect_not_running E st Hrun) as (r & st' & HC & Hpost).
    rewrite HC. cbn [snd]. destruct r as [err |].
    + eapply conn_inv_same_conn; [apply same_but_handles_conn; exact Hpost | exact Hinv].
    + destruct Hpost as (ps & n1 & Hsame & Hlen & ->).
      destruct Hsame as (Ha & _). destruct Hinv as (I1 & _).
      unfold conn_inv. simpl. rewrite Ha. split; [exact I1 |].
      split; [intros _; exact Hlen | discriminate].
Qed.

Lemma conn_inv_Disconnect st : conn_inv (broker st) -> conn_inv (broker (snd (Disconnect st))).
Proof.
  intros Hinv. destruct (running (broker st)) eqn:Hrun.
  - destruct (Disconnect_running st Hrun) as (st' & HD & Hb).
    rewrite HD. cbn [snd]. rewrite Hb.
    destruct Hinv as (I1 & _). unfold conn_inv. simpl.
    split; [exact I1 |]. split; [discriminate | reflexivity].
  - rewrite Disconnect_not_running by assumption. exact Hinv.
Qed.

Lemma conn_inv_step o st : conn_inv (broker st) -> conn_inv (broker (step E o st)).
Proof.
  intros Hinv. destruct o; simpl.
  - eapply conn_inv_same_conn; [apply Init_conn | exact Hinv].
  - apply conn_inv_Connect, Hinv.
  - apply conn_inv_Disconnect, Hinv.
  - rewrite <- (Publish_broker E topic message os st). exact Hinv.
  - eapply conn_inv_same_conn; [apply Subscribe_conn | exact Hinv].
  - rewrite <- (Unsubscribe_broker sub st). exact Hinv.
Qed.

Lemma conn_inv_run ops st : conn_inv (broker st) -> conn_inv (broker (run E ops st)).
Proof.
  revert st. induction ops as [| o ops IH]; intros st Hinv; simpl.
  - exact Hinv.
  - apply IH, conn_inv_step, Hinv.
Qed.

Lemma conn_inv_iff n : conn_inv n -> running n = true <-> p n <> [].
Proof.
  intros (I1 & I2 & I3). split.
  - intros Hr Hp. apply I2 in Hr. rewrite Hp in Hr.
    destruct (nsqdTCPAddrs n); [congruence | discriminate].
  - intros Hp. destruct (running n); [reflexivity |]. exfalso. auto.
Qed.

(** Every state reached from [NewBroker] satisfies the invariant. *)
Lemma conn_inv_reachable os w ops :
  conn_inv (broker (run E ops (mkSt (NewBroker E os) w))).
Proof. apply conn_inv_run. cbn [broker]. apply conn_inv_NewBroker. Qed.

(** C3: in the state built by [NewBroker], and after any sequence of
    public operations ([Init], [Connect], [Disconnect], [Publish],
    [Subscribe], [Unsubscribe]) run from it against any client, [running]
    is true exactly when the producer handle list is non-empty. *)
Theorem running_iff_producers (os : list Option_) (w : World) (ops : list Op) :
  let st := run E ops (mkSt (NewBroker E os) w) in
  running (broker st) = true <-> p (broker st) <> [].
Proof.
  intros st. apply conn_inv_iff, conn_inv_reachable.
Qed.

(** C4: when the configured producer address list is non-empty, a
    successful [Connect] leaves [running] true with as many producer
    handles as configured addresses, and a [Disconnect] right after it
    succeeds and leaves [running] false with no producer handle.  The
    starting state is any state that is not running, or a running one whose
    pool has the size of the address list (as every state reached from
    [NewBroker] has). *)
Theorem Connect_Disconnect_counts (st st1 : St) :
  nsqdTCPAddrs (broker st) <> [] ->
  (running (broker st) = true ->
   length (p (broker st)) = length (nsqdTCPAddrs (broker st))) ->
  Connect E st = (Val None, st1) ->
  running (broker st1) = true /\
  length (p (broker st1)) = length (nsqdTCPAddrs (broker st)) /\
  p (broker st1) <> [] /\
  exists st2,
    Disconnect st1 = (Val None, st2) /\
    running (broker st2) = false /\
    length (p (broker st2)) = 0%nat.
Proof.
  intros Hne Hinv HC.
  assert (Hrun1 : running (broker st1) = true /\
                  length (p (broker st1)) = length (nsqdTCPAddrs (broker st))).
  { destruct (running (broker st)) eqn:Hrun.
    - rewrite Connect_running in HC by assumption. injection HC as <-. auto.
    - destruct (Connect_not_running E st Hrun) as (r & st' & HC' & Hpost).
      rewrite HC in HC'. injection HC' as <- <-.
      destruct Hpost as (ps & n1 & _ & Hlen & ->). simpl. auto. }
  destruct Hrun1 as (Hrun1 & Hlen1). repeat split; try assumption.
  - intros Hp. rewrite Hp in Hlen1. destruct (nsqdTCPAddrs (broker st)); [congruence | discriminate].
  - destruct (Disconnect_running st1 Hrun1) as (st2 & HD & Hb).
    exists st2. rewrite Hb. simpl. auto.
Qed.

(** A successful [Connect] leaves the broker running. *)
Lemma Connect_success_running st st1 :
  Connect E st = (Val None, st1) -> running (broker st1) = true.
Proof.
  intros HC. destruct (running (broker st)) eqn:Hrun.
  - rewrite Connect_running in HC by assumption. injection HC as <-. exact Hrun.
  - destruct (Connect_not_running E st Hrun) as (r & st' & HC' & Hpost).
    rewrite HC in HC'. injection HC' as <- <-.
    destruct Hpost as (ps & n1 & _ & _ & ->). reflexivity.
Qed.

(** C5: on a state that is running, or that a successful [Connect] has
    just produced, [Connect] returns success and leaves the broker and the
    client untouched: no call is added to the trace, no handle is created. *)
Theorem Connect_idempotent (st : St) :
  running (broker st) = true \/ (exists st0, Connect E st0 = (Val None, st)) ->
  Connect E st = (Val None, st).
Proof.
  intros [Hrun | [st0 HC]].
  - apply Connect_running, Hrun.
  - apply Connect_running. eapply Connect_success_running, HC.
Qed.

End Invariant.

(** *** Publish *)

Section Publishing.

Variable E : Env.

(** C1: with an empty producer pool [Publish] does not return an error:
    [rand.Intn(0)] panics, before any producer is selected and before the
    message is encoded. *)
Theorem Publish_empty_pool_panics (st : St) topic message os :
  p (broker st) = [] ->
  Publish E topic message os st = (Panic "invalid argument to Intn", st).
Proof.
  intros Hp. unfold Publish. rewrite bind_get_broker, Hp. reflexivity.
Qed.

Lemma rand_Intn_run n st :
  n <> 0%nat ->
  rand_Intn E n st =
  (Val (Intn_raw E (length (trace (world st))) mod n)%nat,
   mkSt (broker st) (log (EvIntn n) (world st))).
Proof. destruct n; [congruence | reflexivity]. Qed.

(** C9: with a non-empty pool and an encodable message, [Publish] makes
    exactly one send on one producer of the pool.  The send is the
    asynchronous variant exactly when the options carry a non-nil
    completion channel and the deferred variant exactly when they carry a
    positive delay; it carries the topic, the encoded body, and that
    channel and delay.  Its result is what [Publish] returns. *)
Theorem Publish_dispatch (st : St) topic message os b :
  p (broker st) <> [] ->
  Marshal (o_Codec (opts (broker st))) message = Ok b ->
  let options := apply_opts os (mkPublishOptions None) in
  let doneChan := fst (publish_locals options) in
  let delay := snd (publish_locals options) in
  exists ph op,
    In ph (p (broker st)) /\
    Publish E topic message os st =
      (Val (Send_err E (S (length (trace (world st)))) ph op),
       mkSt (broker st)
            (mkWorld (trace (world st) ++ [EvIntn (length (p (broker st))); EvSend ph op])
                     (producers (world st)) (consumers (world st)))) /\
    Send_is_async op = negb (Chan_is_nil doneChan) /\
    Send_is_deferred op = (0 <? delay)%Z /\
    Send_topic op = topic /\
    Send_body op = b /\
    (Send_is_async op = true -> Send_doneChan op = doneChan) /\
    (Send_is_deferred op = true -> Send_delay op = delay).
Proof.
  intros Hp Hm options doneChan delay.
  assert (Hlen : length (p (broker st)) <> 0%nat).
  { destruct (p (broker st)); [congruence | discriminate]. }
  set (i := (Intn_raw E (length (trace (world st))) mod length (p (broker st)))%nat).
  assert (Hi : (i < length (p (broker st)))%nat) by (apply Nat.mod_upper_bound, Hlen).
  destruct (lookup_lt_is_Some_2 _ _ Hi) as [ph Hph].
  assert (Hrun : forall op,
    (i0 <- rand_Intn E (length (p (broker st))) ;;
     ph0 <- index (p (broker st)) i0 ;; Producer_Send E ph0 op) st =
    (Val (Send_err E (S (length (trace (world st)))) ph op),
       mkSt (broker st)
            (mkWorld (trace (world st) ++ [EvIntn (length (p (broker st))); EvSend ph op])
                     (producers (world st)) (consumers (world st))))).
  { intros op. rewrite bind_run, rand_Intn_run by exact Hlen. fold i.
    rewrite bind_run. unfold index. rewrite Hph. unfold ret, Producer_Send. simpl.
    unfold log. simpl. rewrite length_app, <- app_assoc. simpl.
    rewrite Nat.add_1_r. reflexivity. }
  assert (HP : forall op,
    (if negb (Chan_is_nil doneChan)
     then if (0 <? delay)%Z
          then SendDeferredPublishAsync topic delay b doneChan
          else SendPublishAsync topic b doneChan
     else if (0 <? delay)%Z
          then SendDeferredPublish topic delay b
          else SendPublish topic b) = op ->
    Publish E topic message os st =
    (Val (Send_err E (S (length (trace (world st)))) ph op),
       mkSt (broker st)
            (mkWorld (trace (world st) ++ [EvIntn (length (p (broker st))); EvSend ph op])
                     (producers (world st)) (consumers (world st))))).
  { intros op <-. rewrite <- Hrun. unfold Publish.
    rewrite !bind_get_broker, !bind_run.
    destruct (rand_Intn E (length (p (broker st))) st) as [[i0 | msg] st1]; [| reflexivity].
    rewrite !bind_run.
    destruct (index (p (broker st)) i0 st1) as [[ph0 | msg] st2]; [| reflexivity].
    rewrite Hm. fold options. fold doneChan. fold delay.
    destruct (negb (Chan_is_nil doneChan)), (0 <? delay)%Z; reflexivity. }
  exists ph. eexists. split; [eapply list_elem_of_In, list_elem_of_lookup_2, Hph |].
  split; [apply HP; reflexivity |].
  destruct (negb (Chan_is_nil doneChan)), (0 <? delay)%Z; simpl;
    repeat split; congruence.
Qed.

End Publishing.

(** *** Subscribe *)

Lemma alter_last {A : Type} (f : A -> A) (l : list A) (x : A) :
  alter f (length l) (l ++ [x]) = l ++ [f x].
Proof. induction l as [| y l IH]; simpl; [reflexivity | f_equal; exact IH]. Qed.

Section Subscribing.

Variable E : Env.

Lemma Subscribe_spec topic handler os st :
  let options := subscribe_options os in
  let conc := fst (subscribe_locals options) in
  let mif := snd (subscribe_locals options) in
  let h := dispatch options handler topic in
  let channel := resolve_channel E options st in
  let cfg := set_MaxInFlight mif (config (broker st)) in
  let cm := length (consumers (world st)) in
  exists res st' rest,
    Subscribe E topic handler os st = (Val res, st') /\
    trace (world st') =
      trace (world st) ++ channel_events options ++
      EvNewConsumer topic channel cfg :: rest /\
    producers (world st') = producers (world st) /\
    match res with
    | Ok i =>
        i = length (c (broker st)) /\
        broker st' =
          set_c (c (broker st) ++ [mkSubscriber topic options cm h conc]) (broker st) /\
        rest = [EvAddConcurrentHandlers cm h conc; attach_event (broker st) cm] /\
        consumers (world st') =
          consumers (world st) ++
          [mkConsumer topic channel cfg [(h, conc)]
             (attached_lookupds (broker st)) (attached_nsqds (broker st)) false]
    | Err e => broker st' = broker st /\ consumer_error E e
    end.
Proof.
  intros options conc mif h channel cfg cm.
  unfold Subscribe. fold (subscribe_options os). fold options.
  fold conc. fold mif. fold h.
  subst channel cfg cm. clearbody h mif conc options.
  unfold resolve_channel, channel_events, attach_event, attached_lookupds,
    attached_nsqds.
  unfold bind, ret, uuid_NewUUID, get_broker, nsq_NewConsumer,
    AddConcurrentHandlers, ConnectToNSQLookupds, ConnectToNSQDs,
    modify_broker, modify_world.
  destruct (String.length (Queue options) =? 0)%nat; cbn;
    (destruct (NewConsumer_err E _ _ _ _) eqn:HNC; cbn;
     [ eexists _, _, _; split; [reflexivity |]; cbn;
       rewrite <- ?app_assoc; cbn;
       repeat split; try reflexivity; left; eauto |]).
  all: destruct (length (lookupdHTTPAddrs (broker st))) as [| k]; cbn.
  all: first [ destruct (ConnectToNSQLookupds_err E _ _ _) eqn:HC
             | destruct (ConnectToNSQDs_err E _ _ _) eqn:HC ]; cbn.
  all: eexists _, _, _; (split; [reflexivity |]); cbn;
    rewrite <- ?app_assoc; cbn; rewrite ?alter_last; cbn; rewrite ?alter_last;
    repeat split; try reflexivity.
  all: try (right; left; eauto; fail).
  all: try (right; right; eauto; fail).
Qed.

Lemma Subscribe_with_conn r ps topic handler os st :
  Subscribe E topic handler os (with_conn r ps st) =
  (fst (Subscribe E topic handler os st),
   with_conn r ps (snd (Subscribe E topic handler os st))).
Proof.
  unfold Subscribe, with_conn.
  unfold bind, ret, uuid_NewUUID, get_broker, nsq_NewConsumer,
    AddConcurrentHandlers, ConnectToNSQLookupds, ConnectToNSQDs,
    modify_broker, modify_world.
  destruct (String.length (Queue _) =? 0)%nat; cbn;
    (destruct (NewConsumer_err E _ _ _ _); cbn; [reflexivity |]).
  all: destruct (length (lookupdHTTPAddrs (broker st))) as [| k]; cbn.
  all: first [ destruct (ConnectToNSQLookupds_err E _ _ _)
             | destruct (ConnectToNSQDs_err E _ _ _) ]; cbn; reflexivity.
Qed.

Lemma subscribe_locals_spec options :
  subscribe_locals options = (spec_concurrency options, spec_maxInFlight options).
Proof.
  unfold subscribe_locals, spec_maxInFlight, spec_concurrency,
    option_maxInFlight, option_concurrency.
  destruct (so_Context options) as [[[v |] [m |]] |]; reflexivity.
Qed.

(** C10: in every broker state [Subscribe] returns without panic, leaves
    [running] and the producer pool alone, and behaves the same whatever
    these two are: it resolves the channel, creates a consumer, and when
    the client accepts, attaches the dispatch shim, connects the consumer
    to the discovery or direct addresses and appends the record.  The only
    errors it returns are those of the client's consumer calls. *)
Theorem Subscribe_without_Connect topic handler os (st : St) :
  let options := subscribe_options os in
  let h := dispatch options handler topic in
  let conc := fst (subscribe_locals options) in
  let channel := resolve_channel E options st in
  let cfg := set_MaxInFlight (snd (subscribe_locals options)) (config (broker st)) in
  let cm := length (consumers (world st)) in
  exists res st' rest,
    Subscribe E topic handler os st = (Val res, st') /\
    (forall r ps,
       Subscribe E topic handler os (with_conn r ps st) = (Val res, with_conn r ps st')) /\
    running (broker st') = running (broker st) /\
    p (broker st') = p (broker st) /\
    trace (world st') =
      trace (world st) ++ channel_events options ++
      EvNewConsumer topic channel cfg :: rest /\
    match res with
    | Ok i =>
        i = length (c (broker st)) /\
        c (broker st') = c (broker st) ++ [mkSubscriber topic options cm h conc] /\
        rest = [EvAddConcurrentHandlers cm h conc; attach_event (broker st) cm] /\
        consumers (world st') =
          consumers (world st) ++
          [mkConsumer topic channel cfg [(h, conc)]
             (attached_lookupds (broker st)) (attached_nsqds (broker st)) false]
    | Err e => c (broker st') = c (broker st) /\ consumer_error E e
    end.
Proof.
  intros options h conc channel cfg cm.
  destruct (Subscribe_spec topic handler os st) as (res & st' & rest & HS & Ht & _ & Hres).
  exists res, st', rest. split; [exact HS |].
  split; [intros r ps; rewrite Subscribe_with_conn, HS; reflexivity |].
  pose proof (Subscribe_conn E topic handler os st) as (_ & Hr & Hp).
  rewrite HS in Hr, Hp. cbn [snd] in Hr, Hp.
  repeat split; try assumption.
  destruct res as [i | e].
  - destruct Hres as (Hi & Hb & Hrest & Hco). rewrite Hb. repeat split; assumption.
  - destruct Hres as (Hb & He). rewrite Hb. split; [reflexivity | exact He].
Qed.

(** C8: the concurrency a [Subscribe] call resolves is the caller's
    concurrency option and 1 without one; the max-in-flight it resolves is
    the caller's max-in-flight option and the resolved concurrency without
    one.  The consumer is created with a copy of the broker's tuning
    configuration whose max-in-flight is the resolved one, the broker's own
    configuration staying as it was; on success the shim is attached with
    the resolved concurrency, which the record keeps. *)
Theorem Subscribe_tuning topic handler os (st : St) :
  let options := subscribe_options os in
  let conc := spec_concurrency options in
  let mif := spec_maxInFlight options in
  let cfg := mkConfig mif (cfg_flags (config (broker st))) in
  DefaultConcurrentHandlers = 1 /\
  subscribe_locals options = (conc, mif) /\
  exists res st' rest,
    Subscribe E topic handler os st = (Val res, st') /\
    config (broker st') = config (broker st) /\
    trace (world st') =
      trace (world st) ++ channel_events options ++
      EvNewConsumer topic (resolve_channel E options st) cfg :: rest /\
    forall i, res = Ok i ->
      exists s co,
        c (broker st') !! i = Some s /\
        s_n s = conc /\
        consumers (world st') !! s_c s = Some co /\
        co_config co = cfg /\
        co_handlers co = [(s_h s, conc)].
Proof.
  intros options conc mif cfg.
  split; [reflexivity |]. split; [apply subscribe_locals_spec |].
  destruct (Subscribe_spec topic handler os st) as (res & st' & rest & HS & Ht & _ & Hres).
  fold options in Ht, Hres.
  rewrite (subscribe_locals_spec options) in Ht, Hres. cbn [fst snd] in Ht, Hres.
  exists res, st', rest. split; [exact HS |].
  split.
  { destruct res; destruct Hres as (H1 & H2); [destruct H2 as (H2 & _) | rewrite H1; reflexivity].
    rewrite H2. reflexivity. }
  split; [exact Ht |].
  intros i ->. destruct Hres as (-> & Hb & _ & Hco).
  eexists _, _. rewrite Hb, Hco. cbn [c set_c].
  split; [apply list_lookup_middle; reflexivity |].
  split; [reflexivity |].
  split; [cbn [s_c]; apply list_lookup_middle; reflexivity |].
  split; reflexivity.
Qed.

(** C7: the shim of a record created by [Subscribe], run on a raw
    message: when the subscription is not auto-acknowledge the message has
    its automatic response disabled, and otherwise it is left as delivered;
    when decoding the body fails the decode error is the shim's result and
    the handler is not called; when decoding succeeds the handler is called
    once, on the publication made of the topic, the decoded envelope and
    the raw message, and its result is the shim's result. *)
Theorem dispatch_shim topic handler os (st st' : St) (i : nat) :
  Subscribe E topic handler os st = (Val (Ok i), st') ->
  let options := subscribe_options os in
  exists s,
    c (broker st') !! i = Some s /\
    forall (n_opts : Options) (nm : nsqMessage),
      let r := s_h s n_opts nm in
      (AutoAck options = false -> sr_nm r = DisableAutoResponse nm /\
                                  nm_autoResponseDisabled (sr_nm r) = true) /\
      (AutoAck options = true -> sr_nm r = nm) /\
      nm_Body (sr_nm r) = nm_Body nm /\
      match Unmarshal (o_Codec n_opts) (nm_Body nm) with
      | Err err => sr_ret r = Some err /\ sr_handled r = []
      | Ok m =>
          let pb := mkPublication topic m (sr_nm r) in
          sr_handled r = [pb] /\ sr_ret r = handler pb
      end.
Proof.
  intros HS options.
  destruct (Subscribe_spec topic handler os st) as (res & st1 & rest & HS' & _ & _ & Hres).
  rewrite HS in HS'. injection HS' as <- <-.
  destruct Hres as (-> & Hb & _ & _).
  eexists. rewrite Hb. cbn [c set_c].
  split; [apply list_lookup_middle; reflexivity |].
  intros n_opts nm. cbn [s_h]. fold options. unfold dispatch.
  destruct (AutoAck options); cbn [negb].
  - destruct (Unmarshal (o_Codec n_opts) (nm_Body nm)) eqn:HU; cbn;
      rewrite ?HU; repeat split; try discriminate; reflexivity.
  - change (nm_Body (DisableAutoResponse nm)) with (nm_Body nm).
    destruct (Unmarshal (o_Codec n_opts) (nm_Body nm)) eqn:HU; cbn;
      rewrite ?HU; repeat split; try discriminate; reflexivity.
Qed.

End Subscribing.

(** *** Reconnecting the subscriptions *)

Section Reconnect.

Variable E : Env.

(** One successful turn of the consumer loop. *)
Lemma connect_consumer_spec i s st st1 :
  connect_consumer E i s st = (Val None, st1) ->
  let cm := length (consumers (world st)) in
  exists co,
    broker st1 = set_c (alter (set_s_c cm) i (c (broker st))) (broker st) /\
    consumers (world st1) = consumers (world st) ++ [co] /\
    (length (trace (world st)) <= length (trace (world st1)))%nat /\
    reconnected E (broker st) s (length (trace (world st))) co.
Proof.
  unfold connect_consumer, reconnected, attached_lookupds, attached_nsqds.
  unfold bind, ret, uuid_NewUUID, get_broker, nsq_NewConsumer,
    AddConcurrentHandlers, assign_consumer, ConnectToNSQLookupds, ConnectToNSQDs,
    modify_broker, modify_world.
  destruct (String.length (Queue (s_opts s)) =? 0)%nat; cbn;
    (destruct (NewConsumer_err E _ _ _ _) eqn:HNC; cbn; [discriminate |]).
  all: destruct (length (lookupdHTTPAddrs (broker st))) as [| k]; cbn.
  all: first [ destruct (ConnectToNSQLookupds_err E _ _ _) eqn:HC
             | destruct (ConnectToNSQDs_err E _ _ _) eqn:HC ]; cbn.
  all: try discriminate.
  all: intros H; injection H as <-; cbn; rewrite ?alter_last; cbn; rewrite ?alter_last.
  all: eexists; (split; [reflexivity |]); (split; [reflexivity |]); cbn.
  all: rewrite ?length_app; cbn.
  all: repeat split; try reflexivity; try lia; auto.
  all: exists (length (trace (world st))); split; [lia | reflexivity].
Qed.

Lemma reconnected_same n n' s since since' co :
  same_but_handles n n' -> (since <= since')%nat ->
  reconnected E n' s since' co -> reconnected E n s since co.
Proof.
  intros (Ha & Hl & _ & Hc & _) Hle.
  unfold reconnected, attached_nsqds, attached_lookupds. rewrite Ha, Hl, Hc.
  intros (H1 & H2 & H3). split; [exact H1 |]. split; [| exact H3].
  destruct (String.length (Queue (s_opts s)) =? 0)%nat; [| exact H2].
  destruct H2 as (t & Ht & H2). exists t. split; [lia | exact H2].
Qed.

(** A successful run of the consumer loop over the records [cs] that sit
    at indices [i], [i+1], ... of [n.c]: each of them gets a consumer
    created during the run, and neither the earlier records nor the
    consumers that existed before are touched. *)
Lemma connect_consumers_spec cs i st st' :
  connect_consumers E i cs st = (Val None, st') ->
  (forall j s, cs !! j = Some s -> c (broker st) !! (i + j)%nat = Some s) ->
  (forall j, (j < i)%nat -> c (broker st') !! j = c (broker st) !! j) /\
  (forall k, (k < length (consumers (world st)))%nat ->
             consumers (world st') !! k = consumers (world st) !! k) /\
  (length (consumers (world st)) <= length (consumers (world st')))%nat /\
  (forall j s, cs !! j = Some s ->
     exists cm co,
       c (broker st') !! (i + j)%nat = Some (set_s_c cm s) /\
       (length (consumers (world st)) <= cm)%nat /\
       consumers (world st') !! cm = Some co /\
       reconnected E (broker st) s (length (trace (world st))) co).
Proof.
  revert i st. induction cs as [| s rest IH]; intros i st Hrun Hcs.
  - cbn in Hrun. injection Hrun as <-.
    repeat split; try reflexivity. intros j s Hj. discriminate.
  - cbn [connect_consumers] in Hrun. rewrite bind_run in Hrun.
    destruct (connect_consumer E i s st) as [[[err |] | msg] st1] eqn:Hbody;
      try discriminate.
    pose proof (keeps_connect_consumer E i s st) as Hsame.
    rewrite Hbody in Hsame. cbn [snd] in Hsame.
    destruct (connect_consumer_spec i s st st1 Hbody) as (co & Hb1 & Hco1 & Htr1 & Hrec).
    assert (Hrest : forall j s0, rest !! j = Some s0 ->
                      c (broker st1) !! (S i + j)%nat = Some s0).
    { intros j s0 Hj. rewrite Hb1. cbn [c set_c].
      rewrite list_lookup_alter_ne by lia.
      replace (S i + j)%nat with (i + S j)%nat by lia. apply Hcs. exact Hj. }
    destruct (IH (S i) st1 Hrun Hrest) as (Hold & Hcons & Hlen & Hnew).
    assert (Hlen1 : length (consumers (world st1)) = S (length (consumers (world st)))).
    { rewrite Hco1, length_app. simpl. lia. }
    split; [| split; [| split]].
    + intros j Hj. rewrite Hold by lia. rewrite Hb1. cbn [c set_c].
      apply list_lookup_alter_ne. lia.
    + intros k Hk. rewrite Hcons by lia. rewrite Hco1. apply lookup_app_l. exact Hk.
    + lia.
    + intros [| j] s0 Hj.
      * cbn in Hj. injection Hj as <-.
        exists (length (consumers (world st))), co.
        split.
        { rewrite Nat.add_0_r, Hold by lia. rewrite Hb1. cbn [c set_c].
          rewrite list_lookup_alter_eq.
          pose proof (Hcs 0%nat s eq_refl) as H0. rewrite Nat.add_0_r in H0.
          rewrite H0. reflexivity. }
        split; [lia |]. split; [| exact Hrec].
        rewrite Hcons by lia. rewrite Hco1. apply list_lookup_middle. reflexivity.
      * cbn in Hj. destruct (Hnew j s0 Hj) as (cm & co' & Hc' & Hcm & Hco' & Hrec').
        exists cm, co'. replace (i + S j)%nat with (S i + j)%nat by lia.
        split; [exact Hc' |]. split; [lia |]. split; [exact Hco' |].
        eapply reconnected_same; [exact Hsame | exact Htr1 | exact Hrec'].
Qed.

Ltac trace_len :=
  unfold log, push_producer, push_consumer, alter_consumer, alter_producer;
  cbn [trace world]; rewrite ?length_app; cbn [length]; lia.

Lemma NewProducer_world addr cfg st :
  consumers (world (snd (nsq_NewProducer E addr cfg st))) = consumers (world st) /\
  (length (trace (world st)) <=
   length (trace (world (snd (nsq_NewProducer E addr cfg st)))))%nat.
Proof.
  unfold nsq_NewProducer. destruct (NewProducer_err E _ _ _); cbn [snd];
    (split; [reflexivity | trace_len]).
Qed.

Lemma Ping_world ph st :
  consumers (world (snd (Ping E ph st))) = consumers (world st) /\
  (length (trace (world st)) <= length (trace (world (snd (Ping E ph st)))))%nat.
Proof. unfold Ping. cbn [snd]. split; [reflexivity | trace_len]. Qed.

Lemma connect_producers_world addrs acc st :
  consumers (world (snd (connect_producers E addrs acc st))) = consumers (world st) /\
  (length (trace (world st)) <=
   length (trace (world (snd (connect_producers E addrs acc st)))))%nat.
Proof.
  revert acc st. induction addrs as [| addr rest IH]; intros acc st;
    cbn [connect_producers].
  - split; [reflexivity | cbn; lia].
  - rewrite bind_get_broker, bind_run.
    pose proof (NewProducer_world addr (config (broker st)) st) as (Hc1 & Ht1).
    destruct (nsq_NewProducer E addr (config (broker st)) st) as [[[ph | err] | msg] st1];
      cbn [snd] in *; [| split; [exact Hc1 | exact Ht1] ..].
    rewrite bind_run.
    pose proof (Ping_world ph st1) as (Hc2 & Ht2).
    destruct (Ping E ph st1) as [[[err |] | msg] st2]; unfold ret; cbn [snd] in *.
    + split; [congruence | lia].
    + destruct (IH (acc ++ [ph]) st2) as (H1 & H2). split; [congruence | lia].
    + split; [congruence | lia].
Qed.

(** A successful [Connect] on a broker that is not running gives every
    subscription record a consumer created during the call. *)
Lemma Connect_reconnects st st' :
  running (broker st) = false ->
  Connect E st = (Val None, st') ->
  forall i s, c (broker st) !! i = Some s ->
    exists cm co,
      c (broker st') !! i = Some (set_s_c cm s) /\
      (length (consumers (world st)) <= cm)%nat /\
      consumers (world st') !! cm = Some co /\
      reconnected E (broker st) s (length (trace (world st))) co.
Proof.
  intros Hrun HC i s Hi. unfold Connect in HC.
  rewrite bind_get_broker, Hrun, bind_run in HC.
  pose proof (@keeps_connect_producers eq broker_eq_preorder E
                (nsqdTCPAddrs (broker st)) [] st) as Hb1.
  pose proof (connect_producers_world (nsqdTCPAddrs (broker st)) [] st) as (Hw1 & Ht1).
  destruct (connect_producers E (nsqdTCPAddrs (broker st)) [] st)
    as [[[ps | err] | msg] st1]; try discriminate.
  cbn [snd] in Hb1, Hw1, Ht1.
  rewrite bind_get_broker, bind_run in HC.
  destruct (connect_consumers E 0 (c (broker st1)) st1) as [[[err |] | msg] st2] eqn:Hcc;
    try discriminate.
  injection HC as <-. cbn.
  destruct (connect_consumers_spec _ _ _ _ Hcc) as (_ & _ & _ & Hnew).
  { intros j s0 Hj. exact Hj. }
  rewrite Hb1 in Hi. destruct (Hnew i s Hi) as (cm & co & H1 & H2 & H3 & H4).
  exists cm, co. rewrite <- Hw1. split; [exact H1 |]. split; [exact H2 |].
  split; [exact H3 |]. rewrite Hb1.
  eapply reconnected_same; [apply same_but_handles_preorder | exact Ht1 | exact H4].
Qed.

(** *** Stopping the consumers *)

Lemma stop_mono_refl w : stop_mono w w.
Proof. unfold stop_mono. induction (consumers w); constructor; auto. Qed.

Lemma stop_mono_trans w1 w2 w3 : stop_mono w1 w2 -> stop_mono w2 w3 -> stop_mono w1 w3.
Proof.
  unfold stop_mono. generalize (consumers w1) (consumers w2) (consumers w3).
  intros l1 l2 l3 H12. revert l3.
  induction H12 as [| a b l1 l2 Hab _ IH]; intros l3 H23; inversion H23; subst;
    constructor; auto.
Qed.

Lemma stop_mono_alter f ch w w' :
  (forall co, co_stopped co = true -> co_stopped (f co) = true) ->
  consumers w' = alter f ch (consumers w) ->
  stop_mono w w'.
Proof.
  intros Hf Hw. unfold stop_mono. rewrite Hw. clear Hw.
  revert ch. induction (consumers w) as [| co l IH]; intros ch; [constructor |].
  destruct ch as [| ch]; cbn; constructor; auto.
  clear. induction l; constructor; auto.
Qed.

Lemma stop_mono_stopped w w' k co :
  stop_mono w w' -> consumers w !! k = Some co -> co_stopped co = true ->
  exists co', consumers w' !! k = Some co' /\ co_stopped co' = true.
Proof.
  intros Hm Hk Hs. destruct (Forall2_lookup_l _ _ _ _ _ Hm Hk) as (co' & Hk' & Himp).
  exists co'. split; [exact Hk' | apply Himp, Hs].
Qed.

Lemma stop_mono_length w w' :
  stop_mono w w' -> length (consumers w') = length (consumers w).
Proof. intros Hm. symmetry. eapply Forall2_length, Hm. Qed.

Lemma steady_ret {A : Type} (a : A) : steady (ret a).
Proof. intros st. apply stop_mono_refl. Qed.

Lemma steady_bind {A B : Type} (m : M A) (k : A -> M B) :
  steady m -> (forall a, steady (k a)) -> steady (bind m k).
Proof.
  intros Hm Hk st. unfold bind. specialize (Hm st).
  destruct (m st) as [[a | msg] st1]; cbn [snd] in *; [| exact Hm].
  eapply stop_mono_trans; [exact Hm | apply Hk].
Qed.

Lemma steady_for_each {A : Type} (l : list A) (f : A -> M unit) :
  (forall x, steady (f x)) -> steady (for_each l f).
Proof.
  intros Hf. induction l as [| x l IH]; cbn [for_each].
  - apply steady_ret.
  - apply steady_bind; [apply Hf | intros _; exact IH].
Qed.

Lemma stop_mono_same w w' : consumers w' = consumers w -> stop_mono w w'.
Proof. intros H. unfold stop_mono. rewrite H. apply (stop_mono_refl w). Qed.

Lemma steady_Producer_Stop ph : steady (Producer_Stop ph).
Proof. intros st. apply stop_mono_same. reflexivity. Qed.

Lemma steady_Consumer_Stop ch : steady (Consumer_Stop ch).
Proof. intros st. eapply stop_mono_alter; [| reflexivity]. reflexivity. Qed.

Lemma steady_DisconnectFromNSQLookupd ch addr : steady (DisconnectFromNSQLookupd ch addr).
Proof. intros st. eapply stop_mono_alter; [| reflexivity]. intros co H; exact H. Qed.

Lemma steady_DisconnectFromNSQD ch addr : steady (DisconnectFromNSQD ch addr).
Proof. intros st. eapply stop_mono_alter; [| reflexivity]. intros co H; exact H. Qed.

Lemma steady_disconnect_consumer n s : steady (disconnect_consumer n s).
Proof.
  unfold disconnect_consumer.
  apply steady_bind; [apply steady_Consumer_Stop | intros _].
  destruct (0 <? length (lookupdHTTPAddrs n))%nat; apply steady_for_each; intros addr;
    [apply steady_DisconnectFromNSQLookupd | apply steady_DisconnectFromNSQD].
Qed.

Lemma disconnect_consumer_stops n s st :
  (s_c s < length (consumers (world st)))%nat ->
  exists co,
    consumers (world (snd (disconnect_consumer n s st))) !! s_c s = Some co /\
    co_stopped co = true.
Proof.
  intros Hlt. destruct (lookup_lt_is_Some_2 _ _ Hlt) as [co0 Hco0].
  unfold disconnect_consumer. rewrite bind_run.
  change (Consumer_Stop (s_c s) st)
    with (Val tt, mkSt (broker st)
            (alter_consumer set_co_stopped (s_c s) (log (EvConsumerStop (s_c s)) (world st)))).
  cbv iota beta.
  match goal with
  | |- context [snd (?m ?st1)] =>
      assert (Hm : stop_mono (world st1) (world (snd (m st1))))
  end.
  { destruct (0 <? length (lookupdHTTPAddrs n))%nat; apply steady_for_each; intros addr;
      [apply steady_DisconnectFromNSQLookupd | apply steady_DisconnectFromNSQD]. }
  eapply stop_mono_stopped; [exact Hm | |].
  - cbn. rewrite list_lookup_alter_eq, Hco0. reflexivity.
  - reflexivity.
Qed.

Lemma for_each_disconnect_stops n l s st :
  In s l ->
  (s_c s < length (consumers (world st)))%nat ->
  exists co,
    consumers (world (snd (for_each l (disconnect_consumer n) st))) !! s_c s = Some co /\
    co_stopped co = true.
Proof.
  revert st. induction l as [| x l IH]; intros st Hin Hlt; [destruct Hin |].
  cbn [for_each]. rewrite bind_run.
  pose proof (steady_disconnect_consumer n x st) as Hx.
  pose proof (disconnect_consumer_stops n x st) as Hstop.
  destruct (returns_disconnect_consumer n x st) as [[] Hret].
  destruct (disconnect_consumer n x st) as [r st1]. cbn [fst snd] in *. subst r.
  pose proof (steady_for_each l (disconnect_consumer n)
                (steady_disconnect_consumer n) st1) as Hl.
  destruct Hin as [-> | Hin].
  - destruct (Hstop Hlt) as (co & Hco & Hs).
    eapply stop_mono_stopped; [exact Hl | exact Hco | exact Hs].
  - apply IH; [exact Hin |]. rewrite (stop_mono_length _ _ Hx). exact Hlt.
Qed.

(** [Disconnect] on a running broker stops the consumer of every record. *)
Lemma Disconnect_stops st st' s :
  running (broker st) = true ->
  Disconnect st = (Val None, st') ->
  In s (c (broker st)) ->
  (s_c s < length (consumers (world st)))%nat ->
  exists co, consumers (world st') !! s_c s = Some co /\ co_stopped co = true.
Proof.
  intros Hrun HD Hin Hlt. unfold Disconnect in HD.
  rewrite bind_get_broker, Hrun in HD. cbn [negb] in HD. rewrite bind_run in HD.
  pose proof (steady_for_each (p (broker st)) Producer_Stop steady_Producer_Stop st) as H1.
  destruct (for_each (p (broker st)) Producer_Stop st) as [[[] | msg] st1];
    try discriminate.
  cbn [snd] in H1. rewrite bind_run in HD.
  pose proof (for_each_disconnect_stops (broker st) (c (broker st)) s st1 Hin) as H2.
  rewrite (stop_mono_length _ _ H1) in H2. specialize (H2 Hlt).
  destruct (for_each (c (broker st)) (disconnect_consumer (broker st)) st1)
    as [[[] | msg] st2]; try discriminate.
  cbn [snd] in H2. injection HD as <-. exact H2.
Qed.

Lemma same_but_handles_nil n n' :
  same_but_handles n n' -> c n = [] -> n' = n.
Proof.
  intros (H1 & H2 & H3 & H4 & H5 & H6 & H7) Hc. rewrite Hc in H7.
  inversion H7 as [Hc' |]. destruct n, n'. cbn in *. congruence.
Qed.

(** C2, as the code has it: when [Connect] fails on a broker that is not
    running, [running] stays false and the producer pool, the addresses,
    the options and the configuration are as before, so no partial
    producer set is retained; the subscription list keeps its records, in
    order, with their topic, options, shim and concurrency, and only the
    consumer handle a record holds may have been replaced.  When the
    failure comes from the producer loop (creation or liveness probe), or
    when there is no subscription, the broker is exactly as before. *)
Theorem Connect_failure_state (st st' : St) (err : error) :
  running (broker st) = false ->
  Connect E st = (Val (Some err), st') ->
  running (broker st') = false /\
  p (broker st') = p (broker st) /\
  same_but_handles (broker st) (broker st') /\
  length (c (broker st')) = length (c (broker st)) /\
  (forall e1 st1,
     connect_producers E (nsqdTCPAddrs (broker st)) [] st = (Val (Err e1), st1) ->
     e1 = err /\ broker st' = broker st) /\
  (c (broker st) = [] -> broker st' = broker st).
Proof.
  intros Hrun HC.
  destruct (Connect_not_running E st Hrun) as (r & st1 & HC' & Hpost).
  rewrite HC in HC'. injection HC' as <- <-.
  pose proof Hpost as (H1 & H2 & H3 & H4 & H5 & H6 & H7).
  split; [congruence |]. split; [exact H6 |]. split; [exact Hpost |].
  split; [symmetry; eapply Forall2_length, H7 |].
  split.
  - intros e1 st1 Hp. unfold Connect in HC.
    rewrite bind_get_broker, Hrun, bind_run, Hp in HC.
    unfold ret in HC. injection HC as -> <-.
    split; [reflexivity |].
    pose proof (@keeps_connect_producers eq broker_eq_preorder E
                  (nsqdTCPAddrs (broker st)) [] st) as Hb.
    rewrite Hp in Hb. symmetry. exact Hb.
  - apply same_but_handles_nil. exact Hpost.
Qed.

(** C6, as the code has it: the record made by a successful [Subscribe]
    is kept by a following [Disconnect], which succeeds, leaves the broker
    not running and, when the broker was running, stops the record's
    consumer.  A successful [Connect] after that gives the same record a
    consumer created during that call: not stopped, for the record's
    topic, carrying the record's shim with its concurrency, attached to the
    direct addresses when no discovery address is configured, and on the
    caller's group name when one was given, otherwise on a newly generated
    ephemeral channel. *)
Theorem resubscribe_on_reconnect topic handler os (st st1 st2 st3 : St) i r2 :
  Subscribe E topic handler os st = (Val (Ok i), st1) ->
  Disconnect st1 = (r2, st2) ->
  Connect E st2 = (Val None, st3) ->
  let options := subscribe_options os in
  let s := mkSubscriber topic options (length (consumers (world st)))
             (dispatch options handler topic) (fst (subscribe_locals options)) in
  c (broker st1) !! i = Some s /\
  r2 = Val None /\
  c (broker st2) = c (broker st1) /\
  running (broker st2) = false /\
  (running (broker st1) = true ->
   exists co, consumers (world st2) !! s_c s = Some co /\ co_stopped co = true) /\
  exists cm co,
    c (broker st3) !! i = Some (set_s_c cm s) /\
    (length (consumers (world st2)) <= cm)%nat /\
    consumers (world st3) !! cm = Some co /\
    reconnected E (broker st2) s (length (trace (world st2))) co.
Proof.
  intros HS HD HC options s.
  destruct (Subscribe_spec E topic handler os st) as (res & st1' & rest & HS' & _ & _ & Hres).
  rewrite HS in HS'. injection HS' as <- <-.
  destruct Hres as (-> & Hb1 & _ & Hco1). fold options in Hb1, Hco1.
  assert (Hs1 : c (broker st1) !! length (c (broker st)) = Some s).
  { rewrite Hb1. cbn [c set_c]. apply list_lookup_middle. reflexivity. }
  assert (Hlt : (s_c s < length (consumers (world st1)))%nat).
  { rewrite Hco1, length_app. cbn. lia. }
  assert (H2 : r2 = Val None /\ c (broker st2) = c (broker st1) /\
               running (broker st2) = false /\
               (running (broker st1) = true ->
                exists co, consumers (world st2) !! s_c s = Some co /\
                           co_stopped co = true)).
  { destruct (running (broker st1)) eqn:Hrun1.
    - destruct (Disconnect_running st1 Hrun1) as (st2' & HD' & Hb2).
      rewrite HD in HD'. injection HD' as -> <-.
      rewrite Hb2. cbn. repeat split. intros _.
      refine (Disconnect_stops st1 st2 s Hrun1 HD _ Hlt).
      apply list_elem_of_In. eapply list_elem_of_lookup_2, Hs1.
    - rewrite Disconnect_not_running in HD by exact Hrun1.
      injection HD as <- <-. repeat split; [exact Hrun1 | discriminate]. }
  destruct H2 as (Hr2 & Hc2 & Hrun2 & Hstop).
  split; [exact Hs1 |]. split; [exact Hr2 |]. split; [exact Hc2 |].
  split; [exact Hrun2 |]. split; [exact Hstop |].
  apply (Connect_reconnects st2 st3 Hrun2 HC). rewrite Hc2. exact Hs1.
Qed.

End Reconnect.

(** *** Runs on concrete clients *)

Example NewBroker_default_address :
  nsqdTCPAddrs (NewBroker env_ok []) = ["127.0.0.1:4150"].
Proof. reflexivity. Qed.

Example NewBroker_drops_empty_addresses :
  nsqdTCPAddrs (NewBroker env_ok [with_Addrs ["a:1"; ""; "b:2"]]) = ["a:1"; "b:2"].
Proof. reflexivity. Qed.

Example subscribe_locals_default :
  subscribe_locals (subscribe_options []) = (1, 1).
Proof. reflexivity. Qed.

Example subscribe_locals_concurrency :
  subscribe_locals (subscribe_options [with_concurrency 4]) = (4, 4).
Proof. reflexivity. Qed.

Example connected_pool : p (broker st_connected) = [0%nat; 1%nat].
Proof. vm_compute. reflexivity. Qed.

Example disconnected_pool :
  running (broker st_disconnected) = false /\ p (broker st_disconnected) = [].
Proof. vm_compute. auto. Qed.

(** With a group name the channel survives the reconnect. *)
Example reconnect_keeps_group_channel :
  let st1 := snd (Subscribe env_ok "orders" ok_handler [with_Queue "workers"] st_connected) in
  let st3 := snd (Connect env_ok (snd (Disconnect st1))) in
  record_channel st1 0 = Some "workers" /\ record_channel st3 0 = Some "workers".
Proof. vm_compute. auto. Qed.

(** A record made with concurrency 4 is reattached with concurrency 4. *)
Example reconnect_keeps_concurrency :
  let st1 := snd (Subscribe env_ok "orders" ok_handler [with_concurrency 4] st_fresh) in
  let st2 := snd (Connect env_ok st1) in
  (map snd <$> (co_handlers <$> record_consumer st2 0)) = Some [4].
Proof. vm_compute. reflexivity. Qed.

(** C1 at a broker fresh from [NewBroker]. *)
Lemma Publish_on_fresh_broker :
  p (broker st_fresh) = [] /\
  Publish env_ok "orders" msg_x [] st_fresh =
    (Panic "invalid argument to Intn", st_fresh).
Proof.
  split; [reflexivity |].
  apply (Publish_empty_pool_panics env_ok st_fresh "orders" msg_x []).
  reflexivity.
Defined.

(** C2 as stated does not hold: a subscription exists, the producer is
    created and answers the probe, and attaching the new consumer fails;
    [Connect] returns that failure and the record now holds the handle of
    the consumer created by the failed attempt. *)
Lemma Connect_failure_replaces_handle :
  running (broker st_early_sub) = false /\
  fst (Connect env_attach_fails st_early_sub) = Val (Some "connection refused") /\
  map s_c (c (broker st_early_sub)) = [0%nat] /\
  map s_c (c (broker (snd (Connect env_attach_fails st_early_sub)))) = [1%nat] /\
  broker (snd (Connect env_attach_fails st_early_sub)) <> broker st_early_sub.
Proof.
  repeat split; try (vm_compute; reflexivity).
  intros H. apply (f_equal (fun n => map s_c (c n))) in H.
  vm_compute in H. discriminate H.
Qed.

Lemma failed_attach_keeps_pool :
  running (broker st_early_sub) = false /\
  Connect env_attach_fails st_early_sub =
    (Val (Some "connection refused"), snd (Connect env_attach_fails st_early_sub)) /\
  running (broker (snd (Connect env_attach_fails st_early_sub))) = false.
Proof.
  assert (H1 : running (broker st_early_sub) = false) by (vm_compute; reflexivity).
  assert (H2 : Connect env_attach_fails st_early_sub =
               (Val (Some "connection refused"),
                snd (Connect env_attach_fails st_early_sub)))
    by (vm_compute; reflexivity).
  split; [exact H1 |]. split; [exact H2 |].
  exact (proj1 (Connect_failure_state env_attach_fails _ _ _ H1 H2)).
Defined.

Lemma two_addresses_two_producers :
  nsqdTCPAddrs (broker st_fresh) <> [] /\
  Connect env_ok st_fresh = (Val None, st_connected) /\
  length (p (broker st_connected)) = 2%nat.
Proof.
  assert (H1 : nsqdTCPAddrs (broker st_fresh) <> []) by (vm_compute; discriminate).
  assert (H2 : running (broker st_fresh) = true ->
               length (p (broker st_fresh)) = length (nsqdTCPAddrs (broker st_fresh)))
    by (vm_compute; discriminate).
  assert (H3 : Connect env_ok st_fresh = (Val None, st_connected))
    by (vm_compute; reflexivity).
  split; [exact H1 |]. split; [exact H3 |].
  exact (proj1 (proj2 (Connect_Disconnect_counts env_ok _ _ H1 H2 H3))).
Defined.

Lemma second_Connect_is_noop :
  Connect env_ok st_fresh = (Val None, st_connected) /\
  Connect env_ok st_connected = (Val None, st_connected).
Proof.
  assert (H : Connect env_ok st_fresh = (Val None, st_connected))
    by (vm_compute; reflexivity).
  split; [exact H |].
  apply (Connect_idempotent env_ok st_connected). right. exists st_fresh. exact H.
Defined.

(** C6 as stated does not hold for a subscription without a group name:
    after [Connect], [Subscribe], [Disconnect], [Connect], each returning
    success, the record's consumer is on another channel than the consumer
    [Subscribe] created. *)
Lemma reconnect_changes_ephemeral_channel :
  fst (Subscribe env_ok "orders" ok_handler [] st_connected) = Val (Ok 0%nat) /\
  fst (Disconnect st_subscribed) = Val None /\
  fst (Connect env_ok st_disconnected) = Val None /\
  record_channel st_subscribed 0 = Some "uuid-4#ephemeral" /\
  record_channel st_reconnected 0 = Some "uuid-17#ephemeral" /\
  record_channel st_reconnected 0 <> record_channel st_subscribed 0.
Proof.
  repeat split; try (vm_compute; reflexivity).
  vm_compute. discriminate.
Qed.

Lemma reconnect_keeps_record :
  Subscribe env_ok "orders" ok_handler [] st_connected = (Val (Ok 0%nat), st_subscribed) /\
  Disconnect st_subscribed = (Val None, st_disconnected) /\
  Connect env_ok st_disconnected = (Val None, st_reconnected) /\
  c (broker st_disconnected) = c (broker st_subscribed).
Proof.
  assert (H1 : Subscribe env_ok "orders" ok_handler [] st_connected =
               (Val (Ok 0%nat), st_subscribed)) by (vm_compute; reflexivity).
  assert (H2 : Disconnect st_subscribed = (Val None, st_disconnected))
    by (vm_compute; reflexivity).
  assert (H3 : Connect env_ok st_disconnected = (Val None, st_reconnected))
    by (vm_compute; reflexivity).
  split; [exact H1 |]. split; [exact H2 |]. split; [exact H3 |].
  exact (proj1 (proj2 (proj2
    (resubscribe_on_reconnect env_ok _ _ _ _ _ _ _ _ _ H1 H2 H3)))).
Defined.

Lemma subscribed_record_has_shim :
  Subscribe env_ok "orders" ok_handler [] st_connected = (Val (Ok 0%nat), st_subscribed) /\
  exists s, c (broker st_subscribed) !! 0%nat = Some s.
Proof.
  assert (H1 : Subscribe env_ok "orders" ok_handler [] st_connected =
               (Val (Ok 0%nat), st_subscribed)) by (vm_compute; reflexivity).
  split; [exact H1 |].
  destruct (dispatch_shim env_ok _ _ _ _ _ _ H1) as (s & Hs & _).
  exists s. exact Hs.
Defined.

Lemma connected_Publish_sends :
  p (broker st_connected) <> [] /\
  Marshal (o_Codec (opts (broker st_connected))) msg_x = Ok [Byte.x78] /\
  exists ph op, In ph (p (broker st_connected)) /\ Send_topic op = "orders".
Proof.
  assert (H1 : p (broker st_connected) <> []) by (vm_compute; discriminate).
  assert (H2 : Marshal (o_Codec (opts (broker st_connected))) msg_x = Ok [Byte.x78])
    by (vm_compute; reflexivity).
  split; [exact H1 |]. split; [exact H2 |].
  destruct (Publish_dispatch env_ok st_connected "orders" msg_x [] _ H1 H2)
    as (ph & op & Hin & _ & _ & _ & Ht & _).
  exists ph, op. split; [exact Hin | exact Ht].
Defined.

(** ** Further properties of the adapter *)

(** *** Framing on the client side *)

Section KeepsWorld.

Variable R : relation World.
Hypothesis HR : PreOrder R.

Lemma keeps_world_ret {A : Type} (a : A) : keeps_world R (ret a).
Proof. intros st. cbn. reflexivity. Qed.

Lemma keeps_world_panic {A : Type} (msg : string) : keeps_world R (@panic A msg).
Proof. intros st. cbn. reflexivity. Qed.

Lemma keeps_world_bind {A B : Type} (m : M A) (k : A -> M B) :
  keeps_world R m -> (forall a, keeps_world R (k a)) -> keeps_world R (bind m k).
Proof.
  intros Hm Hk st. unfold bind. specialize (Hm st).
  destruct (m st) as [[a | msg] st1]; cbn [snd] in *; [| exact Hm].
  etransitivity; [exact Hm | apply Hk].
Qed.

Lemma keeps_world_for_each {A : Type} (l : list A) (f : A -> M unit) :
  (forall x, keeps_world R (f x)) -> keeps_world R (for_each l f).
Proof.
  intros Hf. induction l as [| x l IH]; cbn [for_each].
  - apply keeps_world_ret.
  - apply keeps_world_bind; [apply Hf | intros _; exact IH].
Qed.

Lemma keeps_world_get_broker : keeps_world R get_broker.
Proof. intros st. cbn. reflexivity. Qed.

Lemma keeps_world_modify_broker f : keeps_world R (modify_broker f).
Proof. intros st. cbn. reflexivity. Qed.

Lemma keeps_world_modify_world f :
  (forall w, R w (f w)) -> keeps_world R (modify_world f).
Proof. intros Hf st. cbn. apply Hf. Qed.

Lemma keeps_world_index {A : Type} (l : list A) (i : nat) : keeps_world R (index l i).
Proof.
  unfold index. destruct (l !! i); [apply keeps_world_ret | apply keeps_world_panic].
Qed.

End KeepsWorld.

(** Walks through a computation and leaves the client calls as goals. *)
Ltac world_step HR :=
  first
    [ apply (keeps_world_bind _ HR); [| intros ?]
    | apply (keeps_world_for_each _ HR); intros ?
    | apply (keeps_world_ret _ HR)
    | apply (keeps_world_panic _ HR)
    | apply (keeps_world_get_broker _ HR)
    | apply (keeps_world_modify_broker _ HR)
    | apply (keeps_world_index _ HR)
    | match goal with
      | |- keeps_world _ (if ?b then _ else _) => destruct b
      | |- keeps_world _ (match ?x with _ => _ end) => destruct x
      end ].

Ltac world_frame HR := repeat world_step HR.

(** *** The calls each operation makes *)

Lemma trace_ext_preorder P : PreOrder (trace_ext P).
Proof.
  split.
  - intros w. exists []. rewrite app_nil_r. split; reflexivity.
  - intros w1 w2 w3 (e1 & H1 & F1) (e2 & H2 & F2). exists (e1 ++ e2).
    rewrite H2, H1, app_assoc. split; [reflexivity |].
    rewrite forallb_app, F1, F2. reflexivity.
Qed.

Lemma trace_ext_log P ev w w' :
  P ev = true -> trace w' = trace w ++ [ev] -> trace_ext P w w'.
Proof. intros HP Hw. exists [ev]. split; [exact Hw |]. cbn. rewrite HP. reflexivity. Qed.

Section Calls.

Variable E : Env.
Variable P : Event -> bool.

Lemma calls_NewProducer addr cfg :
  P (EvNewProducer addr cfg) = true -> keeps_world (trace_ext P) (nsq_NewProducer E addr cfg).
Proof.
  intros HP st. unfold nsq_NewProducer.
  destruct (NewProducer_err E _ _ _); eapply trace_ext_log; try exact HP; reflexivity.
Qed.

Lemma calls_Ping ph : P (EvPing ph) = true -> keeps_world (trace_ext P) (Ping E ph).
Proof. intros HP st. eapply trace_ext_log; [exact HP | reflexivity]. Qed.

Lemma calls_Producer_Stop ph :
  P (EvProducerStop ph) = true -> keeps_world (trace_ext P) (Producer_Stop ph).
Proof. intros HP st. eapply trace_ext_log; [exact HP | reflexivity]. Qed.

Lemma calls_Send ph op :
  P (EvSend ph op) = true -> keeps_world (trace_ext P) (Producer_Send E ph op).
Proof. intros HP st. eapply trace_ext_log; [exact HP | reflexivity]. Qed.

Lemma calls_NewConsumer topic channel cfg :
  P (EvNewConsumer topic channel cfg) = true ->
  keeps_world (trace_ext P) (nsq_NewConsumer E topic channel cfg).
Proof.
  intros HP st. unfold nsq_NewConsumer.
  destruct (NewConsumer_err E _ _ _ _); eapply trace_ext_log; try exact HP; reflexivity.
Qed.

Lemma calls_AddConcurrentHandlers ch h n :
  P (EvAddConcurrentHandlers ch h n) = true ->
  keeps_world (trace_ext P) (AddConcurrentHandlers ch h n).
Proof. intros HP st. eapply trace_ext_log; [exact HP | reflexivity]. Qed.

Lemma calls_ConnectToNSQLookupds ch addrs :
  P (EvConnectToNSQLookupds ch addrs) = true ->
  keeps_world (trace_ext P) (ConnectToNSQLookupds E ch addrs).
Proof.
  intros HP st. unfold ConnectToNSQLookupds.
  destruct (ConnectToNSQLookupds_err E _ _ _); eapply trace_ext_log; try exact HP; reflexivity.
Qed.

Lemma calls_ConnectToNSQDs ch addrs :
  P (EvConnectToNSQDs ch addrs) = true ->
  keeps_world (trace_ext P) (ConnectToNSQDs E ch addrs).
Proof.
  intros HP st. unfold ConnectToNSQDs.
  destruct (ConnectToNSQDs_err E _ _ _); eapply trace_ext_log; try exact HP; reflexivity.
Qed.

Lemma calls_Consumer_Stop ch :
  P (EvConsumerStop ch) = true -> keeps_world (trace_ext P) (Consumer_Stop ch).
Proof. intros HP st. eapply trace_ext_log; [exact HP | reflexivity]. Qed.

Lemma calls_DisconnectFromNSQLookupd ch addr :
  P (EvDisconnectFromNSQLookupd ch addr) = true ->
  keeps_world (trace_ext P) (DisconnectFromNSQLookupd ch addr).
Proof. intros HP st. eapply trace_ext_log; [exact HP | reflexivity]. Qed.

Lemma calls_DisconnectFromNSQD ch addr :
  P (EvDisconnectFromNSQD ch addr) = true ->
  keeps_world (trace_ext P) (DisconnectFromNSQD ch addr).
Proof. intros HP st. eapply trace_ext_log; [exact HP | reflexivity]. Qed.

Lemma calls_NewUUID : P EvNewUUID = true -> keeps_world (trace_ext P) (uuid_NewUUID E).
Proof. intros HP st. eapply trace_ext_log; [exact HP | reflexivity]. Qed.

Lemma calls_Intn n :
  (forall k, P (EvIntn k) = true) -> keeps_world (trace_ext P) (rand_Intn E n).
Proof.
  intros HP. destruct n; [apply keeps_world_panic, trace_ext_preorder |].
  intros st. eapply trace_ext_log; [apply HP | reflexivity].
Qed.

End Calls.

(** Discharges the client calls left by [world_frame] for a trace class. *)
Ltac call_step :=
  first
    [ apply calls_NewProducer | apply calls_Ping | apply calls_Producer_Stop
    | apply calls_Send | apply calls_NewConsumer | apply calls_AddConcurrentHandlers
    | apply calls_ConnectToNSQLookupds | apply calls_ConnectToNSQDs
    | apply calls_Consumer_Stop | apply calls_DisconnectFromNSQLookupd
    | apply calls_DisconnectFromNSQD | apply calls_NewUUID
    | apply calls_Intn; intros ? ]; reflexivity.

Ltac calls P :=
  world_frame (trace_ext_preorder P); try call_step.

Section OperationCalls.

Variable E : Env.

Lemma calls_connect_producers addrs acc :
  keeps_world (trace_ext is_create_call) (connect_producers E addrs acc).
Proof.
  revert acc. induction addrs as [| addr rest IH]; intros acc;
    cbn [connect_producers]; calls is_create_call. apply IH.
Qed.

Lemma calls_connect_consumers cs i :
  keeps_world (trace_ext is_create_call) (connect_consumers E i cs).
Proof.
  revert i. induction cs as [| s rest IH]; intros i;
    cbn [connect_consumers]; calls is_create_call.
  apply IH.
Qed.

Lemma calls_Connect : keeps_world (trace_ext is_create_call) (Connect E).
Proof.
  unfold Connect. calls is_create_call.
  - apply calls_connect_producers.
  - apply calls_connect_consumers.
Qed.

Lemma calls_Disconnect : keeps_world (trace_ext is_teardown_call) Disconnect.
Proof. unfold Disconnect, disconnect_consumer. calls is_teardown_call. Qed.

Lemma calls_Publish topic message os :
  keeps_world (trace_ext is_publish_call) (Publish E topic message os).
Proof. unfold Publish. calls is_publish_call. Qed.

Lemma calls_Subscribe topic handler os :
  keeps_world (trace_ext is_consumer_create_call) (Subscribe E topic handler os).
Proof. unfold Subscribe. calls is_consumer_create_call. Qed.

Lemma calls_Unsubscribe sub : keeps_world (trace_ext is_consumer_stop) (Unsubscribe sub).
Proof. unfold Unsubscribe. calls is_consumer_stop. Qed.

Lemma calls_Init os : keeps_world (trace_ext no_call) (Init E os).
Proof. unfold Init, initByContext. calls no_call. Qed.

Lemma step_calls (o : Op) (st : St) :
  trace_ext (op_calls o) (world st) (world (step E o st)).
Proof.
  destruct o; cbn [step op_calls].
  - apply calls_Init.
  - apply calls_Connect.
  - apply calls_Disconnect.
  - apply calls_Publish.
  - apply calls_Subscribe.
  - apply calls_Unsubscribe.
Qed.

Lemma run_trace_grows (ops : list Op) (st : St) :
  (length (trace (world st)) <= length (trace (world (run E ops st))))%nat.
Proof.
  revert st. induction ops as [| o ops IH]; intros st; cbn [run fold_left].
  - lia.
  - etransitivity; [| apply IH].
    destruct (step_calls o st) as (evs & Ht & _). rewrite Ht, length_app. lia.
Qed.

(** X1: every public operation only makes the client calls of its kind:
    [Init] makes none; [Connect] only creates, probes and attaches, so it
    never stops a handle it created, also when it fails; [Disconnect] only
    stops and detaches; [Publish] only draws a random index and sends;
    [Subscribe] only creates and attaches one consumer; [Unsubscribe] only
    stops a consumer. *)
Theorem operation_calls (o : Op) (st : St) :
  exists evs,
    trace (world (step E o st)) = trace (world st) ++ evs /\
    forallb (op_calls o) evs = true.
Proof. exact (step_calls o st). Qed.

End OperationCalls.

(** *** NewBroker, Init and Address *)

Section Construction.

Variable E : Env.

Lemma filter_nonempty_In (l : list string) a :
  In a (List.filter nonempty l) <-> In a l /\ a <> "".
Proof.
  rewrite filter_In. unfold nonempty. split; intros [H1 H2]; split; try exact H1.
  - intros ->. discriminate.
  - destruct a; [congruence | reflexivity].
Qed.

Lemma filter_all (l : list string) :
  Forall (fun a => a <> "") l -> List.filter nonempty l = l.
Proof.
  induction 1 as [| a l Ha _ IH]; [reflexivity |]. cbn.
  destruct a; [congruence |]. cbn. f_equal. exact IH.
Qed.

(** X2: the producer addresses of a new broker are the configured
    addresses without the empty strings, in order, and the single default
    address when that leaves none; so the list is never empty and holds no
    empty string.  A configuration made of non-empty addresses only is
    taken as it is. *)
Theorem NewBroker_addresses (os : list Option_) :
  let configured := Addrs (apply_opts os (default_options E)) in
  let n := NewBroker E os in
  nsqdTCPAddrs n <> [] /\
  Forall (fun a => a <> "") (nsqdTCPAddrs n) /\
  ((forall a, In a configured -> a = "") -> nsqdTCPAddrs n = ["127.0.0.1:4150"]) /\
  ((exists a, In a configured /\ a <> "") ->
   nsqdTCPAddrs n = List.filter nonempty configured /\
   forall a, In a (nsqdTCPAddrs n) <-> In a configured /\ a <> "") /\
  (configured <> [] -> Forall (fun a => a <> "") configured ->
   nsqdTCPAddrs n = configured).
Proof.
  intros configured n.
  assert (Hn : nsqdTCPAddrs n =
               if (length (List.filter nonempty configured) =? 0)%nat
               then ["127.0.0.1:4150"] else List.filter nonempty configured)
    by reflexivity.
  split; [apply NewBroker_addrs |].
  split.
  { rewrite Hn. destruct (List.filter nonempty configured) as [| a l] eqn:Hf; cbn.
    - constructor; [discriminate | constructor].
    - rewrite <- Hf. apply Forall_forall. intros b Hb.
      apply list_elem_of_In, filter_nonempty_In in Hb. apply Hb. }
  split.
  { intros Hall. rewrite Hn.
    destruct (List.filter nonempty configured) as [| a l] eqn:Hf; [reflexivity |].
    assert (Ha : In a (List.filter nonempty configured)) by (rewrite Hf; left; reflexivity).
    apply filter_nonempty_In in Ha. destruct Ha as (Ha & Hne). elim Hne. apply Hall, Ha. }
  split.
  { intros (a & Ha & Hne).
    assert (Hin : In a (List.filter nonempty configured))
      by (apply filter_nonempty_In; auto).
    assert (Heq : nsqdTCPAddrs n = List.filter nonempty configured).
    { rewrite Hn. destruct (List.filter nonempty configured); [destruct Hin | reflexivity]. }
    split; [exact Heq |]. intros b. rewrite Heq. apply filter_nonempty_In. }
  intros Hne Hall. rewrite Hn, (filter_all _ Hall).
  destruct configured; [congruence | reflexivity].
Qed.

Lemma for_each_set_config (v : list string) st :
  for_each v (fun opt =>
    modify_broker (fun n => set_config (ConfigFlag_Set E (config n) opt) n)) st =
  (Val tt,
   mkSt (set_config (fold_left (ConfigFlag_Set E) v (config (broker st))) (broker st))
        (world st)).
Proof.
  revert st. induction v as [| opt v IH]; intros st; cbn [for_each fold_left].
  - unfold ret. destruct st as [[] w]; reflexivity.
  - rewrite bind_run. unfold modify_broker at 1. rewrite IH. reflexivity.
Qed.

Lemma initByContext_run (cv : BrokerCtx) st :
  initByContext E (Some cv) st =
  (Val tt,
   mkSt (set_config
           (fold_left (ConfigFlag_Set E)
              (match ctx_consumerOpts cv with Some v => v | None => [] end)
              (config (broker st)))
           (match ctx_lookupdHTTPAddrs cv with
            | Some v => set_lookupdHTTPAddrs v (broker st)
            | None => broker st
            end))
        (world st)).
Proof.
  unfold initByContext. rewrite bind_run.
  destruct cv as [[v |] [fl |]]; cbn [ctx_lookupdHTTPAddrs ctx_consumerOpts];
    try (unfold modify_broker at 1); unfold ret; cbv iota beta;
    rewrite ?for_each_set_config; cbn [fold_left broker world];
    try reflexivity; destruct st as [[] w]; reflexivity.
Qed.

Lemma Init_run (os : list Option_) st :
  Init E os st =
  match o_Context (apply_opts os (opts (broker st))) with
  | Some cv =>
      (Val None,
       snd (initByContext E (Some cv)
              (mkSt (set_opts (apply_opts os (opts (broker st))) (broker st)) (world st))))
  | None =>
      (Panic "invalid memory address or nil pointer dereference",
       mkSt (set_opts (apply_opts os (opts (broker st))) (broker st)) (world st))
  end.
Proof.
  unfold Init. rewrite bind_run. unfold modify_broker at 1. cbv iota beta.
  rewrite bind_get_broker. cbn [broker opts set_opts]. rewrite bind_run.
  destruct (o_Context (apply_opts os (opts (broker st)))) as [cv |].
  - rewrite initByContext_run. reflexivity.
  - reflexivity.
Qed.

(** X3: [Init] applies the options to the stored options and then reads
    the context: without a context it panics (the options stay applied);
    otherwise it returns nil, takes the discovery addresses of the context
    when it has some, and applies the client options of the context, in
    order, on top of the current configuration.  It makes no client call
    and never touches the producer addresses fixed by [NewBroker], the
    [running] flag, the pool or the records, even when the options carry
    other addresses. *)
Theorem Init_effect (os : list Option_) (st : St) :
  let o' := apply_opts os (opts (broker st)) in
  let st' := snd (Init E os st) in
  opts (broker st') = o' /\
  nsqdTCPAddrs (broker st') = nsqdTCPAddrs (broker st) /\
  running (broker st') = running (broker st) /\
  p (broker st') = p (broker st) /\
  c (broker st') = c (broker st) /\
  world st' = world st /\
  match o_Context o' with
  | None =>
      fst (Init E os st) = Panic "invalid memory address or nil pointer dereference" /\
      lookupdHTTPAddrs (broker st') = lookupdHTTPAddrs (broker st) /\
      config (broker st') = config (broker st)
  | Some _ =>
      fst (Init E os st) = Val None /\
      lookupdHTTPAddrs (broker st') =
        match context_lookupds o' with
        | Some v => v
        | None => lookupdHTTPAddrs (broker st)
        end /\
      config (broker st') =
        fold_left (ConfigFlag_Set E) (context_consumerOpts o') (config (broker st))
  end.
Proof.
  intros o' st'. subst st'. rewrite Init_run. fold o'.
  unfold context_lookupds, context_consumerOpts.
  destruct (o_Context o') as [cv |].
  - rewrite initByContext_run. cbn [fst snd broker world].
    destruct (ctx_lookupdHTTPAddrs cv); cbn; repeat split; reflexivity.
  - cbn. repeat split; reflexivity.
Qed.

(** X4: a new broker holds no discovery address, whatever the options
    carry in their context: [NewBroker] does not read the context.  The
    addresses of the context are taken by the first [Init]. *)
Theorem lookupds_need_Init (os : list Option_) (w : World) (v : list string) :
  context_lookupds (apply_opts os (default_options E)) = Some v ->
  lookupdHTTPAddrs (NewBroker E os) = [] /\
  exists st',
    Init E [] (mkSt (NewBroker E os) w) = (Val None, st') /\
    lookupdHTTPAddrs (broker st') = v.
Proof.
  intros Hv. split; [reflexivity |].
  rewrite Init_run. cbn [broker opts NewBroker apply_opts fold_left].
  fold (default_options E). unfold context_lookupds in Hv.
  destruct (o_Context (apply_opts os (default_options E))) as [cv |];
    [| discriminate].
  eexists. split; [reflexivity |].
  rewrite initByContext_run. cbn [snd broker]. rewrite Hv. reflexivity.
Qed.

(** X5: on every state reached from [NewBroker], [Address] returns one
    of the producer addresses and leaves the broker as it is; it cannot
    panic there, the address list being non-empty. *)
Theorem Address_reachable (os : list Option_) (w : World) (ops : list Op) :
  let st := run E ops (mkSt (NewBroker E os) w) in
  exists a st',
    Address E st = (Val a, st') /\
    In a (nsqdTCPAddrs (broker st)) /\
    broker st' = broker st.
Proof.
  intros st. destruct (conn_inv_reachable E os w ops) as (Hne & _). fold st in Hne.
  assert (Hlen : length (nsqdTCPAddrs (broker st)) <> 0%nat).
  { destruct (nsqdTCPAddrs (broker st)); [congruence | discriminate]. }
  unfold Address. rewrite bind_get_broker, bind_run.
  rewrite rand_Intn_run by exact Hlen.
  set (i := (Intn_raw E (length (trace (world st))) mod
             length (nsqdTCPAddrs (broker st)))%nat).
  assert (Hi : (i < length (nsqdTCPAddrs (broker st)))%nat)
    by (apply Nat.mod_upper_bound, Hlen).
  destruct (lookup_lt_is_Some_2 _ _ Hi) as [a Ha].
  unfold index. cbn [broker]. rewrite Ha. unfold ret.
  eexists _, _. split; [reflexivity |].
  split; [eapply list_elem_of_In, list_elem_of_lookup_2, Ha | reflexivity].
Qed.

End Construction.

(** *** Disconnect *)

Section TearDown.

(** X6: [Disconnect] always returns nil and leaves the broker not
    running, with its addresses, options, configuration and records as
    they were, and with an empty pool when it was running; a second
    [Disconnect] changes nothing, neither in the broker nor on the client. *)
Theorem Disconnect_twice (st : St) :
  exists st',
    Disconnect st = (Val None, st') /\
    running (broker st') = false /\
    (running (broker st) = true -> p (broker st') = []) /\
    c (broker st') = c (broker st) /\
    nsqdTCPAddrs (broker st') = nsqdTCPAddrs (broker st) /\
    lookupdHTTPAddrs (broker st') = lookupdHTTPAddrs (broker st) /\
    config (broker st') = config (broker st) /\
    Disconnect st' = (Val None, st').
Proof.
  destruct (running (broker st)) eqn:Hrun.
  - destruct (Disconnect_running st Hrun) as (st' & HD & Hb).
    exists st'. split; [exact HD |]. rewrite Hb. cbn.
    repeat split. apply Disconnect_not_running. rewrite Hb. reflexivity.
  - exists st. rewrite Disconnect_not_running by exact Hrun.
    repeat split; try assumption. discriminate.
Qed.

Lemma for_each_trace {A : Type} (l : list A) (f : A -> M unit) (evs : A -> list Event) :
  (forall x st, fst (f x st) = Val tt /\
                trace (world (snd (f x st))) = trace (world st) ++ evs x) ->
  forall st, fst (for_each l f st) = Val tt /\
             trace (world (snd (for_each l f st))) = trace (world st) ++ flat_map evs l.
Proof.
  intros Hf. induction l as [| x l IH]; intros st; cbn [for_each flat_map].
  - cbn. rewrite app_nil_r. split; reflexivity.
  - rewrite bind_run. destruct (Hf x st) as (Hv & Ht).
    destruct (f x st) as [r st1]. cbn [fst snd] in Hv, Ht. subst r.
    destruct (IH st1) as (Hv' & Ht'). split; [exact Hv' |].
    rewrite Ht', Ht, app_assoc. reflexivity.
Qed.

Lemma flat_map_singleton {A B : Type} (f : A -> B) (l : list A) :
  flat_map (fun x => [f x]) l = map f l.
Proof. induction l as [| x l IH]; cbn; [reflexivity | f_equal; exact IH]. Qed.

Lemma disconnect_consumer_trace n s st :
  fst (disconnect_consumer n s st) = Val tt /\
  trace (world (snd (disconnect_consumer n s st))) = trace (world st) ++ detach_events n s.
Proof.
  unfold disconnect_consumer, detach_events. rewrite bind_run.
  change (Consumer_Stop (s_c s) st)
    with (Val tt, mkSt (broker st)
            (alter_consumer set_co_stopped (s_c s) (log (EvConsumerStop (s_c s)) (world st)))).
  cbv iota beta.
  destruct (0 <? length (lookupdHTTPAddrs n))%nat.
  - match goal with
    | |- context [for_each ?l ?f ?s0] =>
        destruct (for_each_trace l f
                    (fun addr => [EvDisconnectFromNSQLookupd (s_c s) addr])
                    (fun x st0 => conj eq_refl eq_refl) s0) as (Hv & Ht)
    end.
    split; [exact Hv |]. rewrite Ht, flat_map_singleton. cbn. rewrite <- app_assoc.
    reflexivity.
  - match goal with
    | |- context [for_each ?l ?f ?s0] =>
        destruct (for_each_trace l f
                    (fun addr => [EvDisconnectFromNSQD (s_c s) addr])
                    (fun x st0 => conj eq_refl eq_refl) s0) as (Hv & Ht)
    end.
    split; [exact Hv |]. rewrite Ht, flat_map_singleton. cbn. rewrite <- app_assoc.
    reflexivity.
Qed.

(** X7: on a running broker [Disconnect] makes exactly these calls, in
    this order: a stop of every producer of the pool, then for every record
    a stop of its consumer followed by a detach from every discovery
    address when there are some and from every direct address otherwise. *)
Theorem Disconnect_trace (st : St) :
  running (broker st) = true ->
  trace (world (snd (Disconnect st))) =
  trace (world st) ++ teardown_events (broker st).
Proof.
  intros Hrun. unfold Disconnect, teardown_events.
  rewrite bind_get_broker, Hrun. cbn [negb]. rewrite bind_run.
  destruct (for_each_trace (p (broker st)) Producer_Stop (fun ph => [EvProducerStop ph])
              (fun x st0 => conj eq_refl eq_refl) st) as (Hv1 & Ht1).
  destruct (for_each (p (broker st)) Producer_Stop st) as [r1 st1].
  cbn [fst snd] in Hv1, Ht1. subst r1. rewrite bind_run.
  destruct (for_each_trace (c (broker st)) (disconnect_consumer (broker st))
              (detach_events (broker st))
              (disconnect_consumer_trace (broker st)) st1) as (Hv2 & Ht2).
  destruct (for_each (c (broker st)) (disconnect_consumer (broker st)) st1) as [r2 st2].
  cbn [fst snd] in Hv2, Ht2. subst r2. cbn.
  rewrite Ht2, Ht1, flat_map_singleton, app_assoc. reflexivity.
Qed.

End TearDown.

Section Release.























End Release.

(** *** Unsubscribe *)

Section Unsubscribing.

Variable E : Env.

Lemma Unsubscribe_run i s st :
  c (broker st) !! i = Some s ->
  Unsubscribe i st =
  (Val None,
   mkSt (broker st)
        (alter_consumer set_co_stopped (s_c s) (log (EvConsumerStop (s_c s)) (world st)))).
Proof.
  intros Hi. unfold Unsubscribe. rewrite bind_get_broker, bind_run.
  unfold index. rewrite Hi. reflexivity.
Qed.

Lemma Disconnect_keeps_records st :
  exists st',
    Disconnect st = (Val None, st') /\
    running (broker st') = false /\
    c (broker st') = c (broker st).
Proof.
  destruct (running (broker st)) eqn:Hrun.
  - destruct (Disconnect_running st Hrun) as (st' & HD & Hb).
    exists st'. rewrite Hb. cbn. auto.
  - exists st. rewrite Disconnect_not_running by exact Hrun. auto.
Qed.

(** X9: [Unsubscribe] returns nil, stops the consumer the record holds
    at that moment and leaves the broker as it is: the record stays in the
    list.  A later successful [Connect] (after a [Disconnect], which is a
    no-op when the broker is not running) therefore gives the unsubscribed
    record a new consumer that is not stopped and carries the record's shim
    for the record's topic. *)
Theorem Unsubscribe_keeps_record (i : nat) (s : subscriber) (st st3 : St) :
  c (broker st) !! i = Some s ->
  Connect E (snd (Disconnect (snd (Unsubscribe i st)))) = (Val None, st3) ->
  let st1 := snd (Unsubscribe i st) in
  fst (Unsubscribe i st) = Val None /\
  broker st1 = broker st /\
  trace (world st1) = trace (world st) ++ [EvConsumerStop (s_c s)] /\
  (forall co, consumers (world st) !! s_c s = Some co ->
     consumers (world st1) !! s_c s = Some (set_co_stopped co)) /\
  exists cm co,
    c (broker st3) !! i = Some (set_s_c cm s) /\
    consumers (world st3) !! cm = Some co /\
    co_stopped co = false /\
    co_topic co = s_topic s /\
    co_handlers co = [(s_h s, s_n s)].
Proof.
  intros Hi HC st1. subst st1. rewrite (Unsubscribe_run i s st Hi) in *.
  cbn [fst snd broker world] in *.
  split; [reflexivity |]. split; [reflexivity |]. split; [reflexivity |].
  split.
  { intros co Hco. unfold alter_consumer, log. cbn [consumers].
    rewrite list_lookup_alter_eq. apply fmap_Some. exists co.
    split; [exact Hco | reflexivity]. }
  match type of HC with
  | Connect E (snd (Disconnect ?s1)) = _ =>
      destruct (Disconnect_keeps_records s1) as (st2 & HD & Hrun2 & Hc2)
  end.
  rewrite HD in HC. cbn [snd broker] in HC, Hc2.
  rewrite <- Hc2 in Hi.
  destruct (Connect_reconnects E st2 st3 Hrun2 HC i s Hi)
    as (cm & co & H1 & _ & H3 & (Ht & _ & _ & Hh & Hs & _)).
  exists cm, co. auto.
Qed.

End Unsubscribing.

(** *** Publish: failures and framing *)

Section PublishEdges.

Variable E : Env.

(** X10: when the codec cannot encode the message, [Publish] on a
    non-empty pool returns the codec's error as it is and sends nothing:
    the only call made is the random draw. *)
Theorem Publish_encode_failure (st : St) topic message os (e : error) :
  p (broker st) <> [] ->
  Marshal (o_Codec (opts (broker st))) message = Err e ->
  Publish E topic message os st =
  (Val (Some e),
   mkSt (broker st) (log (EvIntn (length (p (broker st)))) (world st))).
Proof.
  intros Hp Hm.
  assert (Hlen : length (p (broker st)) <> 0%nat).
  { destruct (p (broker st)); [congruence | discriminate]. }
  unfold Publish. rewrite bind_get_broker, bind_run, (rand_Intn_run E) by exact Hlen.
  set (i := (Intn_raw E (length (trace (world st))) mod length (p (broker st)))%nat).
  assert (Hi : (i < length (p (broker st)))%nat) by (apply Nat.mod_upper_bound, Hlen).
  destruct (lookup_lt_is_Some_2 _ _ Hi) as [ph Hph].
  rewrite bind_run. unfold index. cbn [broker]. rewrite Hph. unfold ret at 1.
  cbv iota beta. rewrite Hm. reflexivity.
Qed.

Lemma same_stores_preorder : PreOrder same_stores.
Proof.
  split.
  - intros w. split; reflexivity.
  - intros w1 w2 w3 (P1 & C1) (P2 & C2). split; congruence.
Qed.

Lemma stores_Publish topic message os :
  keeps_world same_stores (Publish E topic message os).
Proof.
  unfold Publish. world_frame same_stores_preorder;
    first [ intros st0; split; reflexivity
          | destruct (length (p _)); intros st0; split; reflexivity ].
Qed.

(** X11: whatever its outcome (success, codec error, send error, panic),
    [Publish] leaves the broker as it is and changes the state of no
    producer or consumer: a failed send does not stop or drop the producer
    it used, and does not mark the broker as not running. *)
Theorem Publish_frame (st : St) topic message os :
  let st' := snd (Publish E topic message os st) in
  broker st' = broker st /\
  producers (world st') = producers (world st) /\
  consumers (world st') = consumers (world st).
Proof.
  intros st'. subst st'. split.
  - symmetry. apply (Publish_broker E topic message os st).
  - apply (stores_Publish topic message os st).
Qed.

End PublishEdges.

(** *** Subscribe: failures *)

Section SubscribeEdges.

Variable E : Env.

(** X12: when [Subscribe] returns an error it appends no record and
    leaves the broker as it is.  Either no consumer was created, or the
    consumer was created and could not be attached: that consumer stays on
    the client with the shim attached, not stopped and not attached, and
    nothing in the broker refers to it. *)
Theorem Subscribe_failure topic handler os (st st' : St) (e : error) :
  Subscribe E topic handler os st = (Val (Err e), st') ->
  let options := subscribe_options os in
  broker st' = broker st /\
  producers (world st') = producers (world st) /\
  (consumers (world st') = consumers (world st) \/
   exists co,
     consumers (world st') = consumers (world st) ++ [co] /\
     co_topic co = topic /\
     co_handlers co = [(dispatch options handler topic, fst (subscribe_locals options))] /\
     co_stopped co = false /\
     co_nsqds co = [] /\
     co_lookupds co = []).
Proof.
  unfold Subscribe. fold (subscribe_options os).
  generalize (subscribe_options os). intros options.
  unfold bind, ret, uuid_NewUUID, get_broker, nsq_NewConsumer,
    AddConcurrentHandlers, ConnectToNSQLookupds, ConnectToNSQDs,
    modify_broker, modify_world.
  destruct (String.length (Queue options) =? 0)%nat; cbn;
    (destruct (NewConsumer_err E _ _ _ _) eqn:HNC; cbn;
     [ intros H; injection H as <- <-; cbn; auto |]).
  all: destruct (length (lookupdHTTPAddrs (broker st))) as [| k]; cbn.
  all: first [ destruct (ConnectToNSQLookupds_err E _ _ _) eqn:HC
             | destruct (ConnectToNSQDs_err E _ _ _) eqn:HC ]; cbn.
  all: intros H; try discriminate H; injection H as <- <-; cbn.
  all: rewrite ?alter_last; cbn.
  all: split; [reflexivity |]; split; [reflexivity |]; right.
  all: eexists; split; [reflexivity |]; cbn; repeat split; reflexivity.
Qed.

End SubscribeEdges.

(** *** Connect: the pool and the discovery addresses *)

Section ConnectEdges.

Variable E : Env.

Lemma connect_producers_store addrs acc st ps st1 :
  connect_producers E addrs acc st = (Val (Ok ps), st1) ->
  ps = acc ++ seq (length (producers (world st))) (length addrs) /\
  producers (world st1) =
    producers (world st) ++
    map (fun a => mkProducer a (config (broker st)) false) addrs.
Proof.
  revert acc st. induction addrs as [| addr rest IH]; intros acc st;
    cbn [connect_producers].
  - unfold ret. intros H. injection H as <- <-. cbn. rewrite !app_nil_r. auto.
  - rewrite bind_get_broker, bind_run. unfold nsq_NewProducer.
    destruct (NewProducer_err E _ _ _); [discriminate |].
    cbv iota beta. rewrite bind_run. unfold Ping.
    cbv iota beta. cbn [world broker].
    destruct (Ping_err E _ _); [discriminate |].
    intros H. apply IH in H. destruct H as (Hps & Hst).
    cbn [world broker producers log push_producer] in Hps, Hst.
    unfold log, push_producer in Hps, Hst. cbn [producers] in Hps, Hst.
    rewrite length_app in Hps. cbn [length] in Hps.
    rewrite Nat.add_1_r in Hps. split.
    + rewrite Hps, <- app_assoc. reflexivity.
    + rewrite Hst, <- app_assoc. reflexivity.
Qed.

Lemma same_producers_preorder : PreOrder same_producers.
Proof.
  split; [intros w; reflexivity |].
  intros w1 w2 w3 H1 H2. unfold same_producers in *. congruence.
Qed.

Lemma producers_connect_consumers cs i :
  keeps_world same_producers (connect_consumers E i cs).
Proof.
  revert i. induction cs as [| s rest IH]; intros i; cbn [connect_consumers];
    world_frame same_producers_preorder;
    try (apply IH);
    try (intros st0; unfold nsq_NewConsumer, ConnectToNSQLookupds, ConnectToNSQDs;
         repeat case_match; reflexivity).
Qed.

(** X13: a successful [Connect] on a broker that is not running opens
    one producer per configured address, in the order of the addresses and
    with the broker's configuration, and the pool is exactly these new
    handles in that order; the producers that existed before are not
    touched. *)
Theorem Connect_pool (st st' : St) :
  running (broker st) = false ->
  Connect E st = (Val None, st') ->
  p (broker st') =
    seq (length (producers (world st))) (length (nsqdTCPAddrs (broker st))) /\
  producers (world st') =
    producers (world st) ++
    map (fun a => mkProducer a (config (broker st)) false) (nsqdTCPAddrs (broker st)).
Proof.
  intros Hrun HC. unfold Connect in HC.
  rewrite bind_get_broker, Hrun, bind_run in HC.
  destruct (connect_producers E (nsqdTCPAddrs (broker st)) [] st)
    as [[[ps | err] | msg] st1] eqn:Hp; try discriminate.
  apply connect_producers_store in Hp. destruct Hp as (Hps & Hst1).
  rewrite bind_get_broker, bind_run in HC.
  pose proof (producers_connect_consumers (c (broker st1)) 0 st1) as Hsame.
  destruct (connect_consumers E 0 (c (broker st1)) st1) as [[[err |] | msg] st2];
    try discriminate.
  cbn [snd] in Hsame. unfold same_producers in Hsame.
  injection HC as <-. cbn. rewrite Hsame. auto.
Qed.

Lemma connect_producers_ok addrs acc st :
  (forall t a cfg, NewProducer_err E t a cfg = None) ->
  (forall t ph, Ping_err E t ph = None) ->
  exists ps st1, connect_producers E addrs acc st = (Val (Ok ps), st1).
Proof.
  intros HNP HP. revert acc st.
  induction addrs as [| addr rest IH]; intros acc st; cbn [connect_producers].
  - eexists _, _. reflexivity.
  - rewrite bind_get_broker, bind_run. unfold nsq_NewProducer. rewrite HNP.
    cbv iota beta. rewrite bind_run. unfold Ping. rewrite HP. cbv iota beta.
    apply IH.
Qed.

Lemma connect_consumer_lookupd i s st :
  lookupdHTTPAddrs (broker st) <> [] ->
  (forall t topic channel cfg, NewConsumer_err E t topic channel cfg = None) ->
  exists st1, connect_consumer E i s st = (Val None, st1).
Proof.
  intros Hlk HNC. unfold connect_consumer.
  unfold bind, ret, uuid_NewUUID, get_broker, nsq_NewConsumer,
    AddConcurrentHandlers, assign_consumer, ConnectToNSQLookupds,
    modify_broker, modify_world.
  destruct (lookupdHTTPAddrs (broker st)) as [| a l] eqn:Hl; [congruence |].
  destruct (String.length (Queue (s_opts s)) =? 0)%nat; cbn; rewrite HNC; cbn;
    destruct (ConnectToNSQLookupds_err E _ _ _); eexists; reflexivity.
Qed.

Lemma connect_consumers_lookupd cs i st :
  lookupdHTTPAddrs (broker st) <> [] ->
  (forall t topic channel cfg, NewConsumer_err E t topic channel cfg = None) ->
  exists st1, connect_consumers E i cs st = (Val None, st1).
Proof.
  intros Hlk HNC. revert i st Hlk.
  induction cs as [| s rest IH]; intros i st Hlk; cbn [connect_consumers].
  - eexists. reflexivity.
  - rewrite bind_run.
    pose proof (keeps_connect_consumer E i s st) as (_ & Hl & _).
    destruct (connect_consumer_lookupd i s st Hlk HNC) as (st1 & H1).
    rewrite H1 in Hl |- *. cbn [snd] in Hl. apply IH. rewrite Hl. exact Hlk.
Qed.

(** X14: with discovery addresses configured, [Connect] drops the result
    of attaching a consumer to them: if producers can be opened and probed
    and consumers can be created, [Connect] returns nil and the broker is
    running, whatever attaching to the discovery addresses answers. *)
Theorem Connect_ignores_lookupd_errors (st : St) :
  lookupdHTTPAddrs (broker st) <> [] ->
  running (broker st) = false ->
  (forall t a cfg, NewProducer_err E t a cfg = None) ->
  (forall t ph, Ping_err E t ph = None) ->
  (forall t topic channel cfg, NewConsumer_err E t topic channel cfg = None) ->
  fst (Connect E st) = Val None /\ running (broker (snd (Connect E st))) = true.
Proof.
  intros Hlk Hrun HNP HP HNC. unfold Connect.
  rewrite bind_get_broker, Hrun, bind_run.
  destruct (connect_producers_ok (nsqdTCPAddrs (broker st)) [] st HNP HP)
    as (ps & st1 & Hp).
  pose proof (@keeps_connect_producers eq broker_eq_preorder E
                (nsqdTCPAddrs (broker st)) [] st) as Hb1.
  rewrite Hp in Hb1 |- *. cbn [snd] in Hb1.
  rewrite bind_get_broker, bind_run.
  destruct (connect_consumers_lookupd (c (broker st1)) 0 st1) as (st2 & Hc);
    [rewrite <- Hb1; exact Hlk | exact HNC |].
  rewrite Hc. cbn. auto.
Qed.

Lemma Connect_old_consumers st st' :
  running (broker st) = false ->
  Connect E st = (Val None, st') ->
  forall k, (k < length (consumers (world st)))%nat ->
            consumers (world st') !! k = consumers (world st) !! k.
Proof.
  intros Hrun HC k Hk. unfold Connect in HC.
  rewrite bind_get_broker, Hrun, bind_run in HC.
  pose proof (connect_producers_world E (nsqdTCPAddrs (broker st)) [] st) as (Hw1 & _).
  destruct (connect_producers E (nsqdTCPAddrs (broker st)) [] st)
    as [[[ps | err] | msg] st1]; try discriminate.
  cbn [snd] in Hw1. rewrite bind_get_broker, bind_run in HC.
  destruct (connect_consumers E 0 (c (broker st1)) st1) as [[[err |] | msg] st2] eqn:Hcc;
    try discriminate.
  injection HC as <-. cbn [world].
  destruct (connect_consumers_spec E _ _ _ _ Hcc) as (_ & Hold & _).
  { intros j s0 Hj. exact Hj. }
  rewrite Hold by (rewrite Hw1; exact Hk). rewrite Hw1. reflexivity.
Qed.

(** X15: [Connect] replaces the consumer of a record without stopping
    the one the record held.  After a successful [Subscribe] on a broker
    that is not running and a successful [Connect], the consumer created by
    [Subscribe] is still on the client as it was, not stopped, and the
    record holds a second, newer consumer, not stopped either, for the same
    topic and with the same shim. *)
Theorem Subscribe_then_Connect_two_consumers topic handler os (st st1 st2 : St) i :
  running (broker st) = false ->
  Subscribe E topic handler os st = (Val (Ok i), st1) ->
  Connect E st1 = (Val None, st2) ->
  let options := subscribe_options os in
  let h := dispatch options handler topic in
  let conc := fst (subscribe_locals options) in
  let cm0 := length (consumers (world st)) in
  exists co0 cm co,
    record_consumer st1 i = Some co0 /\
    consumers (world st2) !! cm0 = Some co0 /\
    co_stopped co0 = false /\ co_topic co0 = topic /\ co_handlers co0 = [(h, conc)] /\
    record_consumer st2 i = Some co /\
    consumers (world st2) !! cm = Some co /\
    (cm0 < cm)%nat /\
    co_stopped co = false /\ co_topic co = topic /\ co_handlers co = [(h, conc)].
Proof.
  intros Hrun HS HC options h conc cm0.
  destruct (Subscribe_spec E topic handler os st) as (res & st1' & rest & HS' & _ & _ & Hres).
  rewrite HS in HS'. injection HS' as <- <-.
  destruct Hres as (-> & Hb1 & _ & Hco1).
  fold options in Hb1, Hco1. fold h in Hb1, Hco1. fold conc in Hb1, Hco1.
  fold cm0 in Hb1.
  set (s := mkSubscriber topic options cm0 h conc) in *.
  assert (Hs1 : c (broker st1) !! length (c (broker st)) = Some s).
  { rewrite Hb1. cbn [c set_c]. apply list_lookup_middle. reflexivity. }
  assert (Hrun1 : running (broker st1) = false) by (rewrite Hb1; exact Hrun).
  assert (Hlen1 : length (consumers (world st1)) = S cm0).
  { rewrite Hco1, length_app. cbn. unfold cm0. lia. }
  match type of Hco1 with _ = _ ++ [?x] => set (co0 := x) in * end.
  assert (Hc0 : consumers (world st1) !! cm0 = Some co0).
  { rewrite Hco1. apply list_lookup_middle. reflexivity. }
  destruct (Connect_reconnects E st1 st2 Hrun1 HC _ s Hs1)
    as (cm & co & H1 & H2 & H3 & (Ht & _ & _ & Hh & Hs & _)).
  exists co0, cm, co.
  split; [unfold record_consumer; rewrite Hs1; exact Hc0 |].
  split; [rewrite (Connect_old_consumers st1 st2 Hrun1 HC) by lia; exact Hc0 |].
  split; [reflexivity |]. split; [reflexivity |]. split; [reflexivity |].
  split; [unfold record_consumer; rewrite H1; exact H3 |].
  split; [exact H3 |]. split; [lia |]. auto.
Qed.

End ConnectEdges.

(** *** Across a reconnect, and between Publish and the shim *)

Section Composition.

Variable E : Env.

Lemma Disconnect_keeps_config st :
  exists st',
    Disconnect st = (Val None, st') /\
    running (broker st') = false /\
    c (broker st') = c (broker st) /\
    config (broker st') = config (broker st).
Proof.
  destruct (running (broker st)) eqn:Hrun.
  - destruct (Disconnect_running st Hrun) as (st' & HD & Hb).
    exists st'. rewrite Hb. cbn. auto.
  - exists st. rewrite Disconnect_not_running by exact Hrun. auto.
Qed.

(** X16: the max-in-flight resolved by [Subscribe] does not survive a
    reconnect.  The consumer [Subscribe] creates carries the broker's
    configuration with the resolved max-in-flight; the consumer a later
    [Connect] creates for the same record carries the broker's
    configuration as it is, so the two differ whenever the resolved value
    is not the broker's own. *)
Theorem reconnect_drops_maxInFlight topic handler os (st st1 st2 st3 : St) i r2 :
  Subscribe E topic handler os st = (Val (Ok i), st1) ->
  Disconnect st1 = (r2, st2) ->
  Connect E st2 = (Val None, st3) ->
  let mif := snd (subscribe_locals (subscribe_options os)) in
  exists co1 co3,
    record_consumer st1 i = Some co1 /\
    co_config co1 = mkConfig mif (cfg_flags (config (broker st))) /\
    record_consumer st3 i = Some co3 /\
    co_config co3 = config (broker st) /\
    (mif <> MaxInFlight (config (broker st)) -> co_config co3 <> co_config co1).
Proof.
  intros HS HD HC mif.
  destruct (Subscribe_spec E topic handler os st) as (res & st1' & rest & HS' & _ & _ & Hres).
  rewrite HS in HS'. injection HS' as <- <-.
  destruct Hres as (-> & Hb1 & _ & Hco1). fold mif in Hco1.
  match type of Hb1 with _ = set_c (_ ++ [?x]) _ => set (s := x) in * end.
  match type of Hco1 with _ = _ ++ [?x] => set (co1 := x) in * end.
  assert (Hs1 : c (broker st1) !! length (c (broker st)) = Some s).
  { rewrite Hb1. cbn [c set_c]. apply list_lookup_middle. reflexivity. }
  assert (Hc1 : consumers (world st1) !! s_c s = Some co1).
  { rewrite Hco1. apply list_lookup_middle. reflexivity. }
  destruct (Disconnect_keeps_config st1) as (st2' & HD' & Hrun2 & Hc2 & Hcfg2).
  rewrite HD in HD'. injection HD' as -> <-.
  rewrite <- Hc2 in Hs1.
  destruct (Connect_reconnects E st2 st3 Hrun2 HC _ s Hs1)
    as (cm & co3 & H1 & _ & H3 & (_ & _ & Hcfg & _)).
  assert (Hcfg3 : co_config co3 = config (broker st)).
  { rewrite Hcfg, Hcfg2, Hb1. reflexivity. }
  exists co1, co3.
  split; [unfold record_consumer; rewrite <- Hc2, Hs1; exact Hc1 |].
  split; [reflexivity |].
  split; [unfold record_consumer; rewrite H1; exact H3 |].
  split; [exact Hcfg3 |].
  intros Hne Heq. rewrite Hcfg3 in Heq. apply Hne.
  apply (f_equal MaxInFlight) in Heq. cbn in Heq. congruence.
Qed.

Lemma Publish_sends (st : St) topic message os b :
  p (broker st) <> [] ->
  Marshal (o_Codec (opts (broker st))) message = Ok b ->
  exists ph op,
    In ph (p (broker st)) /\
    trace (world (snd (Publish E topic message os st))) =
      trace (world st) ++ [EvIntn (length (p (broker st))); EvSend ph op] /\
    Send_topic op = topic /\ Send_body op = b.
Proof.
  intros Hp Hm.
  assert (Hlen : length (p (broker st)) <> 0%nat).
  { destruct (p (broker st)); [congruence | discriminate]. }
  unfold Publish. rewrite bind_get_broker, bind_run, (rand_Intn_run E) by exact Hlen.
  set (i := (Intn_raw E (length (trace (world st))) mod length (p (broker st)))%nat).
  assert (Hi : (i < length (p (broker st)))%nat) by (apply Nat.mod_upper_bound, Hlen).
  destruct (lookup_lt_is_Some_2 _ _ Hi) as [ph Hph].
  rewrite bind_run. unfold index. cbn [broker]. rewrite Hph. unfold ret at 1.
  cbv iota beta. rewrite Hm. exists ph.
  destruct (negb (Chan_is_nil _)), (0 <? _)%Z; eexists;
    (split; [eapply list_elem_of_In, list_elem_of_lookup_2, Hph |]);
    unfold Producer_Send, log; cbn; rewrite <- app_assoc; cbn; auto.
Qed.

(** X17: round trip through the codec.  When the codec decodes what it
    encoded for a message, the body [Publish] sends for that message,
    delivered to the shim of any subscription, reaches the handler as a
    publication carrying the subscription's topic and a message equal to
    the published one, and the handler's result is the shim's result. *)
Theorem Publish_dispatch_roundtrip (st : St) topic message os b
    (options : SubscribeOptions) (handler : Handler) (sub_topic : string) :
  p (broker st) <> [] ->
  Marshal (o_Codec (opts (broker st))) message = Ok b ->
  Unmarshal (o_Codec (opts (broker st))) b = Ok message ->
  exists ph op,
    trace (world (snd (Publish E topic message os st))) =
      trace (world st) ++ [EvIntn (length (p (broker st))); EvSend ph op] /\
    forall nm, nm_Body nm = Send_body op ->
      let r := dispatch options handler sub_topic (opts (broker st)) nm in
      exists pb,
        sr_handled r = [pb] /\
        publication_Topic pb = sub_topic /\
        publication_Message pb = message /\
        sr_ret r = handler pb.
Proof.
  intros Hp Hm Hu.
  destruct (Publish_sends st topic message os b Hp Hm) as (ph & op & _ & Ht & _ & Hb).
  exists ph, op. split; [exact Ht |].
  intros nm Hnm. unfold dispatch.
  assert (Hbody : nm_Body (if negb (AutoAck options) then DisableAutoResponse nm else nm) = b).
  { destruct (negb (AutoAck options)); cbn; congruence. }
  rewrite Hbody, Hu. eexists. cbn. repeat split; reflexivity.
Qed.

Lemma length_append (s1 s2 : string) :
  String.length (s1 ++ s2) = (String.length s1 + String.length s2)%nat.
Proof.
  induction s1 as [| a s1 IH]; [reflexivity |].
  change (S (String.length (s1 ++ s2)) = S (String.length s1 + String.length s2)).
  f_equal. exact IH.
Qed.

Lemma append_inj_r (s1 s2 t : string) : (s1 ++ t = s2 ++ t)%string -> s1 = s2.
Proof.
  revert s2. induction s1 as [| a s1 IH]; intros [| b s2] H.
  - reflexivity.
  - apply (f_equal String.length) in H. rewrite !length_append in H.
    cbn [String.length] in H. lia.
  - apply (f_equal String.length) in H. rewrite !length_append in H.
    cbn [String.length] in H. lia.
  - change (String a (s1 ++ t) = String b (s2 ++ t))%string in H.
    injection H as -> H. f_equal. apply IH. exact H.
Qed.

(** X18: two subscriptions made without a group name are on different
    channels, both marked ephemeral, as long as the identifier generator
    never returns the same identifier twice; this holds whatever operations
    run between the two [Subscribe] calls. *)
Theorem ephemeral_channels_distinct
    topic1 handler1 os1 topic2 handler2 os2 (ops : list Op) (st st1 st3 : St) i1 i2 :
  (forall t1 t2, NewUUID_string E t1 = NewUUID_string E t2 -> t1 = t2) ->
  Queue (subscribe_options os1) = "" ->
  Queue (subscribe_options os2) = "" ->
  Subscribe E topic1 handler1 os1 st = (Val (Ok i1), st1) ->
  Subscribe E topic2 handler2 os2 (run E ops st1) = (Val (Ok i2), st3) ->
  exists u1 u2,
    record_channel st1 i1 = Some (ephemeral u1) /\
    record_channel st3 i2 = Some (ephemeral u2) /\
    ephemeral u1 <> ephemeral u2.
Proof.
  intros Hinj Hq1 Hq2 HS1 HS2.
  destruct (Subscribe_spec E topic1 handler1 os1 st)
    as (res & st1' & rest & HS' & Ht1 & _ & Hres).
  rewrite HS1 in HS'. injection HS' as <- <-.
  destruct Hres as (-> & Hb1 & _ & Hco1).
  destruct (Subscribe_spec E topic2 handler2 os2 (run E ops st1))
    as (res & st3' & rest' & HS' & _ & _ & Hres).
  rewrite HS2 in HS'. injection HS' as <- <-.
  destruct Hres as (-> & Hb3 & _ & Hco3).
  unfold resolve_channel in Hco1, Hco3. rewrite Hq1 in Hco1. rewrite Hq2 in Hco3.
  cbn [String.length Nat.eqb] in Hco1, Hco3.
  exists (NewUUID_string E (length (trace (world st)))),
         (NewUUID_string E (length (trace (world (run E ops st1))))).
  split.
  { unfold record_channel, record_consumer. rewrite Hb1. cbn [c set_c].
    rewrite list_lookup_middle by reflexivity. cbn [s_c].
    rewrite Hco1, list_lookup_middle by reflexivity. reflexivity. }
  split.
  { unfold record_channel, record_consumer. rewrite Hb3. cbn [c set_c].
    rewrite list_lookup_middle by reflexivity. cbn [s_c].
    rewrite Hco3, list_lookup_middle by reflexivity. reflexivity. }
  intros Heq. unfold ephemeral in Heq. apply append_inj_r, Hinj in Heq.
  pose proof (run_trace_grows E ops st1) as Hgrow.
  rewrite Ht1, !length_app in Hgrow. cbn [length] in Hgrow. lia.
Qed.

End Composition.

(** *** Where errors come from *)

Section Errors.

Variable E : Env.

Lemma connect_producers_err addrs acc st e st1 :
  connect_producers E addrs acc st = (Val (Err e), st1) -> producer_error E e.
Proof.
  revert acc st. induction addrs as [| addr rest IH]; intros acc st;
    cbn [connect_producers].
  - discriminate.
  - rewrite bind_get_broker, bind_run. unfold nsq_NewProducer.
    destruct (NewProducer_err E _ _ _) eqn:HNP.
    + unfold ret. intros H. injection H as <- _. left. eauto.
    + cbv iota beta. rewrite bind_run. unfold Ping. cbv iota beta.
      destruct (Ping_err E _ _) eqn:HP.
      * unfold ret. intros H. injection H as <- _. right. eauto.
      * apply IH.
Qed.

Lemma connect_consumer_err i s st e st1 :
  connect_consumer E i s st = (Val (Some e), st1) ->
  (exists t topic channel cfg, NewConsumer_err E t topic channel cfg = Some e) \/
  (lookupdHTTPAddrs (broker st) = [] /\
   exists t ch addrs, ConnectToNSQDs_err E t ch addrs = Some e).
Proof.
  unfold connect_consumer.
  unfold bind, ret, uuid_NewUUID, get_broker, nsq_NewConsumer,
    AddConcurrentHandlers, assign_consumer, ConnectToNSQLookupds, ConnectToNSQDs,
    modify_broker, modify_world.
  destruct (String.length (Queue (s_opts s)) =? 0)%nat; cbn;
    (destruct (NewConsumer_err E _ _ _ _) eqn:HNC; cbn;
     [ intros H; injection H as <- _; left; eauto |]).
  all: destruct (lookupdHTTPAddrs (broker st)) as [| a l]; cbn.
  all: first [ destruct (ConnectToNSQLookupds_err E _ _ _) eqn:HC
             | destruct (ConnectToNSQDs_err E _ _ _) eqn:HC ]; cbn.
  all: intros H; try discriminate H; injection H as <- _; right; eauto 6.
Qed.

Lemma connect_consumers_err cs i st e st1 :
  connect_consumers E i cs st = (Val (Some e), st1) ->
  (exists t topic channel cfg, NewConsumer_err E t topic channel cfg = Some e) \/
  (lookupdHTTPAddrs (broker st) = [] /\
   exists t ch addrs, ConnectToNSQDs_err E t ch addrs = Some e).
Proof.
  revert i st. induction cs as [| s rest IH]; intros i st; cbn [connect_consumers].
  - discriminate.
  - rewrite bind_run.
    pose proof (keeps_connect_consumer E i s st) as (_ & Hl & _).
    destruct (connect_consumer E i s st) as [[[err |] | msg] st2] eqn:Hbody;
      try discriminate.
    + unfold ret. intros H. injection H as <- _. eapply connect_consumer_err, Hbody.
    + intros H. apply IH in H. cbn [snd] in Hl. rewrite Hl in H. exact H.
Qed.

(** X19: [Connect] never panics, and an error it returns is an error of
    the client: from opening or probing a producer, from creating a
    consumer, or, only when no discovery address is configured, from
    attaching a consumer to the direct addresses.  After such a failure
    the broker is not running, so a [Disconnect] is a no-op: what the
    failed attempt opened on the client is not stopped by it. *)
Theorem Connect_failure_origin (st : St) :
  exists r st',
    Connect E st = (Val r, st') /\
    forall e, r = Some e ->
      running (broker st') = false /\
      Disconnect st' = (Val None, st') /\
      (producer_error E e \/
       (exists t topic channel cfg, NewConsumer_err E t topic channel cfg = Some e) \/
       (lookupdHTTPAddrs (broker st) = [] /\
        exists t ch addrs, ConnectToNSQDs_err E t ch addrs = Some e)).
Proof.
  destruct (running (broker st)) eqn:Hrun.
  { exists None, st. rewrite Connect_running by exact Hrun. split; [reflexivity |].
    discriminate. }
  destruct (Connect_not_running E st Hrun) as (r & st' & HC & Hpost).
  exists r, st'. split; [exact HC |]. intros e ->.
  destruct Hpost as (_ & _ & _ & _ & Hr & _).
  assert (Hrun' : running (broker st') = false) by congruence.
  split; [exact Hrun' |]. split; [apply Disconnect_not_running, Hrun' |].
  unfold Connect in HC. rewrite bind_get_broker, Hrun, bind_run in HC.
  pose proof (@keeps_connect_producers eq broker_eq_preorder E
                (nsqdTCPAddrs (broker st)) [] st) as Hb1.
  destruct (connect_producers E (nsqdTCPAddrs (broker st)) [] st)
    as [[[ps | err] | msg] st1] eqn:Hp; try discriminate.
  - cbn [snd] in Hb1. rewrite bind_get_broker, bind_run in HC.
    destruct (connect_consumers E 0 (c (broker st1)) st1) as [[[err |] | msg] st2] eqn:Hcc;
      try discriminate.
    unfold ret in HC. injection HC as -> _.
    right. rewrite Hb1. eapply connect_consumers_err, Hcc.
  - unfold ret in HC. injection HC as -> _. left. eapply connect_producers_err, Hp.
Qed.

(** X20: [Publish] panics exactly when the pool is empty.  On a non-empty
    pool it returns, and an error it returns is the codec's encoding error
    or the error of a send made on a producer of the pool. *)
Theorem Publish_outcomes (st : St) topic message os :
  ((exists msg, fst (Publish E topic message os st) = Panic msg) <->
   p (broker st) = []) /\
  forall e, fst (Publish E topic message os st) = Val (Some e) ->
    Marshal (o_Codec (opts (broker st))) message = Err e \/
    exists t ph op, In ph (p (broker st)) /\ Send_err E t ph op = Some e.
Proof.
  destruct (p (broker st)) as [| ph0 l] eqn:Hp.
  { unfold Publish. rewrite bind_get_broker, Hp. cbn.
    split; [split; [reflexivity | eauto] | discriminate]. }
  assert (Hlen : length (p (broker st)) <> 0%nat) by (rewrite Hp; discriminate).
  unfold Publish. rewrite bind_get_broker, bind_run, (rand_Intn_run E) by exact Hlen.
  set (i := (Intn_raw E (length (trace (world st))) mod length (p (broker st)))%nat).
  assert (Hi : (i < length (p (broker st)))%nat) by (apply Nat.mod_upper_bound, Hlen).
  destruct (lookup_lt_is_Some_2 _ _ Hi) as [ph Hph].
  assert (Hin : In ph (ph0 :: l)).
  { rewrite <- Hp. eapply list_elem_of_In, list_elem_of_lookup_2, Hph. }
  rewrite bind_run. unfold index. cbn [broker]. rewrite Hph. unfold ret at 1.
  cbv iota beta.
  destruct (Marshal (o_Codec (opts (broker st))) message) as [b | err].
  - destruct (negb (Chan_is_nil _)), (0 <? _)%Z; unfold Producer_Send; cbn [fst];
      (split; [split; [intros [msg H]; discriminate H | discriminate] |]);
      intros e He; injection He as He; right; eauto.
  - cbn. split; [split; [intros [msg H]; discriminate H | discriminate] |].
    intros e He. injection He as ->. left. reflexivity.
Qed.

End Errors.

(** *** Further runs on concrete clients *)

Lemma lookupds_taken_by_Init :
  context_lookupds (apply_opts [with_lookupds ["lookupd:4161"]] (default_options env_ok)) =
    Some ["lookupd:4161"] /\
  lookupdHTTPAddrs (NewBroker env_ok [with_lookupds ["lookupd:4161"]]) = [].
Proof.
  assert (H : context_lookupds
                (apply_opts [with_lookupds ["lookupd:4161"]] (default_options env_ok)) =
              Some ["lookupd:4161"]) by reflexivity.
  split; [exact H |].
  exact (proj1 (lookupds_need_Init env_ok _ empty_world _ H)).
Defined.

Lemma subscribed_teardown_trace :
  running (broker st_subscribed) = true /\
  trace (world st_disconnected) =
    trace (world st_subscribed) ++
    [EvProducerStop 0%nat; EvProducerStop 1%nat; EvConsumerStop 0%nat;
     EvDisconnectFromNSQD 0%nat "a:1"; EvDisconnectFromNSQD 0%nat "b:2"].
Proof.
  assert (H : running (broker st_subscribed) = true) by (vm_compute; reflexivity).
  split; [exact H |].
  exact (Disconnect_trace st_subscribed H).
Defined.


Lemma unsubscribed_record_kept :
  (exists s, c (broker st_subscribed) !! 0%nat = Some s) /\
  broker (snd (Unsubscribe 0 st_subscribed)) = broker st_subscribed.
Proof.
  destruct (c (broker st_subscribed) !! 0%nat) as [s |] eqn:Hs;
    [| vm_compute in Hs; discriminate Hs].
  split; [exists s; reflexivity |].
  assert (HC : Connect env_ok (snd (Disconnect (snd (Unsubscribe 0 st_subscribed)))) =
               (Val None,
                snd (Connect env_ok (snd (Disconnect (snd (Unsubscribe 0 st_subscribed)))))))
    by (vm_compute; reflexivity).
  exact (proj1 (proj2 (Unsubscribe_keeps_record env_ok 0 s st_subscribed _ Hs HC))).
Defined.

Lemma failing_codec_Publish :
  p (broker st_failing_codec) <> [] /\
  Marshal (o_Codec (opts (broker st_failing_codec))) msg_x = Err "unsupported" /\
  fst (Publish env_ok "orders" msg_x [] st_failing_codec) = Val (Some "unsupported").
Proof.
  assert (H1 : p (broker st_failing_codec) <> []) by (vm_compute; discriminate).
  assert (H2 : Marshal (o_Codec (opts (broker st_failing_codec))) msg_x =
               Err "unsupported") by (vm_compute; reflexivity).
  split; [exact H1 |]. split; [exact H2 |].
  rewrite (Publish_encode_failure env_ok st_failing_codec "orders" msg_x [] _ H1 H2).
  reflexivity.
Defined.

Lemma second_Subscribe_fails :
  Subscribe env_attach_fails "orders" ok_handler [] st_early_sub =
    (Val (Err "connection refused"),
     snd (Subscribe env_attach_fails "orders" ok_handler [] st_early_sub)) /\
  broker (snd (Subscribe env_attach_fails "orders" ok_handler [] st_early_sub)) =
    broker st_early_sub.
Proof.
  assert (H : Subscribe env_attach_fails "orders" ok_handler [] st_early_sub =
              (Val (Err "connection refused"),
               snd (Subscribe env_attach_fails "orders" ok_handler [] st_early_sub)))
    by (vm_compute; reflexivity).
  split; [exact H |].
  exact (proj1 (Subscribe_failure env_attach_fails _ _ _ _ _ _ H)).
Defined.

Lemma two_addresses_pool :
  running (broker st_fresh) = false /\
  Connect env_ok st_fresh = (Val None, st_connected) /\
  p (broker st_connected) = [0%nat; 1%nat].
Proof.
  assert (H1 : running (broker st_fresh) = false) by reflexivity.
  assert (H2 : Connect env_ok st_fresh = (Val None, st_connected))
    by (vm_compute; reflexivity).
  split; [exact H1 |]. split; [exact H2 |].
  exact (proj1 (Connect_pool env_ok _ _ H1 H2)).
Defined.

Lemma lookupd_failure_ignored :
  lookupdHTTPAddrs (broker st_lookupd) <> [] /\
  running (broker st_lookupd) = false /\
  c (broker st_lookupd) <> [] /\
  fst (Connect env_lookupd_fails st_lookupd) = Val None.
Proof.
  assert (H1 : lookupdHTTPAddrs (broker st_lookupd) <> []) by (vm_compute; discriminate).
  assert (H2 : running (broker st_lookupd) = false) by (vm_compute; reflexivity).
  split; [exact H1 |]. split; [exact H2 |].
  split; [vm_compute; discriminate |].
  exact (proj1 (Connect_ignores_lookupd_errors env_lookupd_fails st_lookupd H1 H2
                  (fun _ _ _ => eq_refl) (fun _ _ => eq_refl) (fun _ _ _ _ => eq_refl))).
Defined.

Lemma early_Subscribe_two_consumers :
  running (broker st_fresh) = false /\
  Subscribe env_ok "orders" ok_handler [] st_fresh =
    (Val (Ok 0%nat), snd (Subscribe env_ok "orders" ok_handler [] st_fresh)) /\
  exists co0 cm co,
    consumers (world (snd (Connect env_ok
       (snd (Subscribe env_ok "orders" ok_handler [] st_fresh))))) !! 0%nat = Some co0 /\
    co_stopped co0 = false /\
    consumers (world (snd (Connect env_ok
       (snd (Subscribe env_ok "orders" ok_handler [] st_fresh))))) !! cm = Some co /\
    (0 < cm)%nat /\ co_stopped co = false.
Proof.
  assert (H1 : running (broker st_fresh) = false) by reflexivity.
  assert (H2 : Subscribe env_ok "orders" ok_handler [] st_fresh =
               (Val (Ok 0%nat), snd (Subscribe env_ok "orders" ok_handler [] st_fresh)))
    by (vm_compute; reflexivity).
  assert (H3 : Connect env_ok (snd (Subscribe env_ok "orders" ok_handler [] st_fresh)) =
               (Val None,
                snd (Connect env_ok (snd (Subscribe env_ok "orders" ok_handler [] st_fresh)))))
    by (vm_compute; reflexivity).
  split; [exact H1 |]. split; [exact H2 |].
  destruct (Subscribe_then_Connect_two_consumers env_ok _ _ _ _ _ _ _ H1 H2 H3)
    as (co0 & cm & co & _ & A & B & _ & _ & _ & C & D & F & _).
  exists co0, cm, co. auto.
Defined.

Lemma maxInFlight_lost_on_reconnect :
  let st1 := snd (Subscribe env_ok "orders" ok_handler [with_maxInFlight 5] st_connected) in
  let st2 := snd (Disconnect st1) in
  let st3 := snd (Connect env_ok st2) in
  Subscribe env_ok "orders" ok_handler [with_maxInFlight 5] st_connected =
    (Val (Ok 0%nat), st1) /\
  Connect env_ok st2 = (Val None, st3) /\
  exists co1 co3,
    record_consumer st1 0 = Some co1 /\ MaxInFlight (co_config co1) = 5 /\
    record_consumer st3 0 = Some co3 /\ MaxInFlight (co_config co3) = 1.
Proof.
  intros st1 st2 st3.
  assert (H1 : Subscribe env_ok "orders" ok_handler [with_maxInFlight 5] st_connected =
               (Val (Ok 0%nat), st1)) by (vm_compute; reflexivity).
  assert (H2 : Disconnect st1 = (Val None, st2)) by (vm_compute; reflexivity).
  assert (H3 : Connect env_ok st2 = (Val None, st3)) by (vm_compute; reflexivity).
  split; [exact H1 |]. split; [exact H3 |].
  destruct (reconnect_drops_maxInFlight env_ok _ _ _ _ _ _ _ _ _ H1 H2 H3)
    as (co1 & co3 & A & B & C & D & _).
  exists co1, co3.
  split; [exact A |]. split; [rewrite B; reflexivity |].
  split; [exact C |]. rewrite D. reflexivity.
Defined.

Lemma raw_codec_roundtrip :
  p (broker st_connected) <> [] /\
  Marshal (o_Codec (opts (broker st_connected))) msg_x = Ok [Byte.x78] /\
  Unmarshal (o_Codec (opts (broker st_connected))) [Byte.x78] = Ok msg_x /\
  exists ph op,
    trace (world (snd (Publish env_ok "orders" msg_x [] st_connected))) =
    trace (world st_connected) ++ [EvIntn 2%nat; EvSend ph op].
Proof.
  assert (H1 : p (broker st_connected) <> []) by (vm_compute; discriminate).
  assert (H2 : Marshal (o_Codec (opts (broker st_connected))) msg_x = Ok [Byte.x78])
    by (vm_compute; reflexivity).
  assert (H3 : Unmarshal (o_Codec (opts (broker st_connected))) [Byte.x78] = Ok msg_x)
    by (vm_compute; reflexivity).
  split; [exact H1 |]. split; [exact H2 |]. split; [exact H3 |].
  destruct (Publish_dispatch_roundtrip env_ok st_connected "orders" msg_x [] _
              (subscribe_options []) ok_handler "orders" H1 H2 H3)
    as (ph & op & Ht & _).
  exists ph, op. exact Ht.
Defined.

Lemma uuid_of_inj (t1 t2 : nat) : uuid_of t1 = uuid_of t2 -> t1 = t2.
Proof.
  unfold uuid_of. intros H.
  apply (inj (String.append "uuid-")) in H. apply (inj pretty) in H. exact H.
Qed.

Lemma two_ephemeral_subscriptions :
  let st1 := snd (Subscribe env_ok "orders" ok_handler [] st_fresh) in
  let st3 := snd (Subscribe env_ok "payments" ok_handler [] (run env_ok [OpConnect] st1)) in
  Subscribe env_ok "orders" ok_handler [] st_fresh = (Val (Ok 0%nat), st1) /\
  Subscribe env_ok "payments" ok_handler [] (run env_ok [OpConnect] st1) =
    (Val (Ok 1%nat), st3) /\
  record_channel st1 0 <> record_channel st3 1.
Proof.
  intros st1 st3.
  assert (H1 : Subscribe env_ok "orders" ok_handler [] st_fresh = (Val (Ok 0%nat), st1))
    by (vm_compute; reflexivity).
  assert (H2 : Subscribe env_ok "payments" ok_handler [] (run env_ok [OpConnect] st1) =
               (Val (Ok 1%nat), st3)) by (vm_compute; reflexivity).
  split; [exact H1 |]. split; [exact H2 |].
  destruct (ephemeral_channels_distinct env_ok "orders" ok_handler [] "payments"
              ok_handler [] [OpConnect] st_fresh st1 st3 0 1
              uuid_of_inj eq_refl eq_refl H1 H2) as (u1 & u2 & A & B & C).
  rewrite A, B. intros H. injection H as H. exact (C H).
Defined.
